(** * set.js: the contract-handle cache, the SetToken API and the trade-quote fixtures

    A shallow embedding of
    - [ContractWrapper] (the cache of connected contract handles),
    - [SetTokenWrapper] (one read of a SetToken contract),
    - [SetTokenAPI] (validation, then delegation to the per-contract wrappers),
    - the module life cycle of a SetToken as the wrapper tests exercise it,
    - the trade-quote fixtures,
    followed by the properties the specification states about them. *)

From Stdlib Require Import ZArith QArith Qround Ascii String DecimalString.
From stdpp Require Import gmap strings list fin_maps.

Local Open Scope string_scope.

(** An [Address] is a plain string in the sources
    ([import { Address } from 'set-protocol-v2/utils/types']). *)
Abbreviation Address := string.

(** Outcome of an [async] method: the promise resolves or rejects. *)
Inductive result (E A : Type) : Type :=
| Ok (a : A)
| Err (e : E).
Arguments Ok {E A} a.
Arguments Err {E A} e.


(** ** ContractWrapper *)

Module ContractWrapper.

(** The typechain factories whose [connect] the wrapper calls. *)
Inductive ContractKind :=
| Controller
| ERC20
| BasicIssuanceModule
| TradeModule
| SetToken
| SetTokenCreator
| StreamingFeeModule
| ProtocolViewer.

#[export] Instance ContractKind_eq_dec : EqDecision ContractKind.
Proof. solve_decision. Defined.

(** The literal that starts the cache key in each [load*Async]. *)
Definition key_prefix (k : ContractKind) : string :=
  match k with
  | Controller => "Controller"
  | ERC20 => "ERC20"
  | BasicIssuanceModule => "BasicIssuance"
  | TradeModule => "TradeModule"
  | SetToken => "SetToken"
  | SetTokenCreator => "SetTokenCreator"
  | StreamingFeeModule => "StreamingFeeModule"
  | ProtocolViewer => "ProtocolViewer"
  end.

(** A signer, as far as the wrapper uses it: [await signer.getAddress()]
    resolves to an address or rejects ([None]). *)
Record Signer := { getAddress : option Address }.

(** [(this.provider as JsonRpcProvider).getSigner(callerAddress)]. *)
Record Provider := { getSigner : option Address -> Signer }.

(** A connected handle.  [ref] is the identity of the JavaScript object that
    [Factory.connect] allocated; the other fields are what it was given. *)
Record Contract := {
  ref : nat;
  factory : ContractKind;
  address : Address;
  signer : Signer
}.

(** What a property read on the cache object can give: a stored handle,
    or a member inherited from [Object.prototype]. *)
Inductive JsValue :=
| Handle (c : Contract)
| Inherited (name : string).

(** The wrapper instance ([provider], [cache]) together with the number of
    objects allocated so far, which gives the next fresh identity. *)
Record State := {
  provider : Provider;
  cache : gmap string Contract;
  allocated : nat
}.

(** [new ContractWrapper(provider)]: [this.cache = {}]. *)
Definition new (p : Provider) (heap : nat) : State :=
  {| provider := p; cache := ∅; allocated := heap |}.

(** Property names that every object literal inherits. *)
Definition object_prototype : list string :=
  [ "constructor"; "__defineGetter__"; "__defineSetter__"; "hasOwnProperty";
    "__lookupGetter__"; "__lookupSetter__"; "isPrototypeOf";
    "propertyIsEnumerable"; "toString"; "valueOf"; "__proto__";
    "toLocaleString" ].

(** [key in this.cache]: own property or inherited one. *)
Definition js_in (key : string) (o : gmap string Contract) : bool :=
  bool_decide (is_Some (o !! key)) || bool_decide (key ∈ object_prototype).

(** [this.cache[key]] when [key in this.cache]. *)
Definition js_get (key : string) (o : gmap string Contract) : JsValue :=
  match o !! key with
  | Some c => Handle c
  | None => Inherited key
  end.

(** The template literal [`Kind_${address}_${await signer.getAddress()}`]. *)
Definition cacheKey (k : ContractKind) (addr caller : Address) : string :=
  key_prefix k +:+ "_" +:+ addr +:+ "_" +:+ caller.

Inductive LoadError := GetAddressRejected.

(** The body shared by the eight [load*Async] methods: the key is built
    after the only [await]; lookup and store then run without interruption. *)
Definition load (k : ContractKind) (addr : Address) (s : Signer)
    (st : State) : result LoadError JsValue * State :=
  match getAddress s with
  | None => (Err GetAddressRejected, st)
  | Some caller =>
      let key := cacheKey k addr caller in
      if js_in key (cache st) then (Ok (js_get key (cache st)), st)
      else
        let c := {| ref := allocated st; factory := k;
                    address := addr; signer := s |} in
        (Ok (Handle c),
         {| provider := provider st;
            cache := <[key := c]> (cache st);
            allocated := S (allocated st) |})
  end.

Definition loadControllerContractAsync (controllerAddress : Address) (s : Signer) :=
  load Controller controllerAddress s.

Definition loadERC20Async (tokenAddress : Address) (callerAddress : option Address)
    (st : State) :=
  load ERC20 tokenAddress (getSigner (provider st) callerAddress) st.

Definition loadBasicIssuanceModuleAsync (basicIssuanceModuleAddress : Address)
    (callerAddress : option Address) (st : State) :=
  load BasicIssuanceModule basicIssuanceModuleAddress
       (getSigner (provider st) callerAddress) st.

Definition loadTradeModuleAsync (tradeModuleAddress : Address)
    (callerAddress : option Address) (st : State) :=
  load TradeModule tradeModuleAddress (getSigner (provider st) callerAddress) st.

Definition loadSetTokenAsync (setTokenAddress : Address)
    (callerAddress : option Address) (st : State) :=
  load SetToken setTokenAddress (getSigner (provider st) callerAddress) st.

Definition loadSetTokenCreatorAsync (setTokenCreatorAddress : Address) (s : Signer) :=
  load SetTokenCreator setTokenCreatorAddress s.

Definition loadStreamingFeeModuleAsync (streamingFeeModuleAddress : Address)
    (callerAddress : option Address) (st : State) :=
  load StreamingFeeModule streamingFeeModuleAddress
       (getSigner (provider st) callerAddress) st.

Definition loadProtocolViewerContractAsync (protocolViewerAddress : Address)
    (s : Signer) :=
  load ProtocolViewer protocolViewerAddress s.

(** The public methods of the class, as calls. *)
Inductive Method :=
| LoadControllerContractAsync (a : Address) (s : Signer)
| LoadERC20Async (a : Address) (caller : option Address)
| LoadBasicIssuanceModuleAsync (a : Address) (caller : option Address)
| LoadTradeModuleAsync (a : Address) (caller : option Address)
| LoadSetTokenAsync (a : Address) (caller : option Address)
| LoadSetTokenCreatorAsync (a : Address) (s : Signer)
| LoadStreamingFeeModuleAsync (a : Address) (caller : option Address)
| LoadProtocolViewerContractAsync (a : Address) (s : Signer).

Definition call (m : Method) : State -> result LoadError JsValue * State :=
  match m with
  | LoadControllerContractAsync a s => loadControllerContractAsync a s
  | LoadERC20Async a c => loadERC20Async a c
  | LoadBasicIssuanceModuleAsync a c => loadBasicIssuanceModuleAsync a c
  | LoadTradeModuleAsync a c => loadTradeModuleAsync a c
  | LoadSetTokenAsync a c => loadSetTokenAsync a c
  | LoadSetTokenCreatorAsync a s => loadSetTokenCreatorAsync a s
  | LoadStreamingFeeModuleAsync a c => loadStreamingFeeModuleAsync a c
  | LoadProtocolViewerContractAsync a s => loadProtocolViewerContractAsync a s
  end.

(** A sequence of calls on one instance. *)
Definition calls (ms : list Method) (st : State) : State :=
  foldl (fun s m => snd (call m s)) st ms.

(** The (kind, contract address, caller address) triple a call is for;
    [None] when the signer's address cannot be obtained. *)
Definition kind_of (m : Method) : ContractKind :=
  match m with
  | LoadControllerContractAsync _ _ => Controller
  | LoadERC20Async _ _ => ERC20
  | LoadBasicIssuanceModuleAsync _ _ => BasicIssuanceModule
  | LoadTradeModuleAsync _ _ => TradeModule
  | LoadSetTokenAsync _ _ => SetToken
  | LoadSetTokenCreatorAsync _ _ => SetTokenCreator
  | LoadStreamingFeeModuleAsync _ _ => StreamingFeeModule
  | LoadProtocolViewerContractAsync _ _ => ProtocolViewer
  end.

Definition address_of (m : Method) : Address :=
  match m with
  | LoadControllerContractAsync a _ | LoadERC20Async a _
  | LoadBasicIssuanceModuleAsync a _ | LoadTradeModuleAsync a _
  | LoadSetTokenAsync a _ | LoadSetTokenCreatorAsync a _
  | LoadStreamingFeeModuleAsync a _ | LoadProtocolViewerContractAsync a _ => a
  end.

Definition signer_of (p : Provider) (m : Method) : Signer :=
  match m with
  | LoadControllerContractAsync _ s | LoadSetTokenCreatorAsync _ s
  | LoadProtocolViewerContractAsync _ s => s
  | LoadERC20Async _ c | LoadBasicIssuanceModuleAsync _ c
  | LoadTradeModuleAsync _ c | LoadSetTokenAsync _ c
  | LoadStreamingFeeModuleAsync _ c => getSigner p c
  end.

Definition tuple_of (p : Provider) (m : Method)
    : option (ContractKind * Address * Address) :=
  match getAddress (signer_of p m) with
  | Some caller => Some (kind_of m, address_of m, caller)
  | None => None
  end.

(** Addresses as a signer reports them are 0x-prefixed hexadecimal, so they
    hold no underscore; the key separator relies on that. *)
Fixpoint no_underscore (s : string) : bool :=
  match s with
  | EmptyString => true
  | String ch rest => negb (Ascii.eqb ch "_") && no_underscore rest
  end.

Definition is_hex_digit (ch : ascii) : bool :=
  let n := nat_of_ascii ch in
  (((48 <=? n) && (n <=? 57)) || ((65 <=? n) && (n <=? 70))
   || ((97 <=? n) && (n <=? 102)))%nat.

Fixpoint all_hex (s : string) : bool :=
  match s with
  | EmptyString => true
  | String ch rest => is_hex_digit ch && all_hex rest
  end.

(** ["0x"] followed by forty hexadecimal digits. *)
Definition is_hex_address (s : string) : bool :=
  match s with
  | String "0" (String "x" digits) =>
      all_hex digits && (String.length digits =? 40)%nat
  | _ => false
  end.

(** The invariant of an instance: every stored handle was allocated, and no
    two keys share a handle. *)
Definition cache_ok (st : State) : Prop :=
  (∀ key h, cache st !! key = Some h → ref h < allocated st)
  ∧ (∀ key1 key2 h1 h2,
       cache st !! key1 = Some h1 → cache st !! key2 = Some h2 →
       ref h1 = ref h2 → key1 = key2).

(** Every entry sits under the key of what it was connected with. *)
Definition cache_keyed (st : State) : Prop :=
  ∀ key h, cache st !! key = Some h →
    ∃ caller, getAddress (signer h) = Some caller
              ∧ key = cacheKey (factory h) (address h) caller.

End ContractWrapper.

(** ** Domain types of the SetToken API *)

(** [ModuleState] of [../types]: the state of a module on a SetToken. *)
Inductive ModuleState := NONE | PENDING | INITIALIZED.

#[export] Instance ModuleState_eq_dec : EqDecision ModuleState.
Proof. solve_decision. Defined.

Inductive PositionState := DEFAULT | EXTERNAL.

Record Position := {
  component : Address;
  module : Address;
  unit : Z;
  positionState : PositionState;
  data : string
}.

Record SetDetails := {
  name : string;
  symbol : string;
  manager : Address;
  modules : list Address;
  moduleStatuses : list ModuleState;
  positions : list Position;
  totalSupply : Z
}.

Record StreamingFeeInfo := {
  feeRecipient : Address;
  streamingFeePercentage : Z;
  unaccruedFees : Z
}.

(** Transaction overrides and receipts are passed through untouched. *)
Definition TransactionOverrides := list (string * Z).
Definition ContractTransaction := string.

(** The values a property of a returned object can hold. *)
Inductive Value :=
| VString (s : string)
| VBigNumber (n : Z)
| VAddresses (l : list Address)
| VStatuses (l : list ModuleState)
| VPositions (l : list Position).

(** A plain JavaScript object: property name to value. *)
Abbreviation JsObject := (gmap string Value).

(** A [SetDetails] value as the object the viewer hands over. *)
Definition SetDetails_object (d : SetDetails) : JsObject :=
  <["totalSupply" := VBigNumber (totalSupply d)]>
  (<["positions" := VPositions (positions d)]>
  (<["moduleStatuses" := VStatuses (moduleStatuses d)]>
  (<["modules" := VAddresses (modules d)]>
  (<["manager" := VString (manager d)]>
  (<["symbol" := VString (symbol d)]>
  (<["name" := VString (name d)]> ∅)))))).



(** How a call can fail: a validation assertion threw, a property was read
    off [undefined], or the delegate (remote call) rejected with a payload
    that is passed on as it is. *)
Inductive Error :=
| ValidationError (message : string)
| TypeError (message : string)
| RemoteError (payload : string).

(** ** SetTokenWrapper *)

(** [src/wrappers/set-protocol-v2/SetTokenWrapper.ts]: a provider and one
    read, through a contract object built anew on every call. *)
Module SetTokenWrapper.

Section Wrapper.

Context {W : Type}.

(** What the SetToken contract at an address answers to [getPositions()]. *)
Variable getPositions : Address -> W -> result string (list Position) * W.

Record t := { provider : ContractWrapper.Provider }.

(** [new ethers.Contract(setTokenAddress, setTokenABI.abi, this.provider)]. *)
Record Contract := {
  ref : nat;
  address : Address;
  connectedTo : ContractWrapper.Provider
}.

Record St := {
  this : t;
  allocated : nat;
  world : W
}.

Definition new (p : ContractWrapper.Provider) : t := {| provider := p |}.

Definition loadSetToken (setTokenAddress : Address) (st : St) : Contract * St :=
  ({| ref := allocated st; address := setTokenAddress;
      connectedTo := provider (this st) |},
   {| this := this st; allocated := S (allocated st); world := world st |}).

Definition popPosition (setAddress : Address) (st : St)
    : result string (list Position) * St :=
  let '(setToken, st1) := loadSetToken setAddress st in
  let '(r, w) := getPositions (address setToken) (world st1) in
  (r, {| this := this st1; allocated := allocated st1; world := w |}).

End Wrapper.

Arguments t : clear implicits.
Arguments St : clear implicits.

End SetTokenWrapper.

(** ** Assertions *)

Module Assertions.

Record CommonAssertions := {
  isNotEmptyArray : list Address -> string -> result Error ();
  isEqualLength : list Address -> list Z -> string -> result Error ()
}.

Record SchemaAssertions := {
  isValidAddress : string -> Address -> result Error ();
  isValidAddressList : string -> list Address -> result Error ();
  isValidBytes32 : string -> string -> result Error ()
}.

Record t := {
  common : CommonAssertions;
  schema : SchemaAssertions
}.

Section Default.

(** The address format and the 32-byte hash format the schema checks. *)
Variable wellFormed : Address -> bool.
Variable wellFormedBytes32 : string -> bool.

(** Modelled from the spec: the validation layer ([../assertions], not among
    the sources): "pre-call assertions (address format, array-length
    equality, non-empty lists)", each raising before any remote call. *)
Definition new : t :=
  {| common :=
       {| isNotEmptyArray := fun arr message =>
            if (length arr =? 0)%nat then Err (ValidationError message)
            else Ok ();
          isEqualLength := fun a b message =>
            if (length a =? length b)%nat then Ok ()
            else Err (ValidationError message) |};
     schema :=
       {| isValidAddress := fun variableName value =>
            if wellFormed value then Ok ()
            else Err (ValidationError variableName);
          isValidAddressList := fun variableName values =>
            if forallb wellFormed values then Ok ()
            else Err (ValidationError variableName);
          isValidBytes32 := fun variableName value =>
            if wellFormedBytes32 value then Ok ()
            else Err (ValidationError variableName) |} |}.

End Default.

End Assertions.

(** ** SetTokenAPI *)

Module SetTokenAPI.

(** The calls the API hands to the wrappers behind it; each one stands for
    the remote request the wrapper issues. *)
Inductive Request :=
| ReqCreate (componentAddresses : list Address) (units : list Z)
    (moduleAddresses : list Address) (managerAddress : Address)
    (name symbol : string) (callerAddress : option Address)
    (txOpts : TransactionOverrides)
| ReqGetCreatedSetTokenAddress (txHash : string)
| ReqGetSetDetails (setTokenAddress : Address) (moduleAddresses : list Address)
    (callerAddress : option Address)
| ReqBatchFetchStreamingFeeInfo (setTokenAddresses : list Address)
    (callerAddress : option Address)
| ReqBatchFetchDetails (setTokenAddresses moduleAddresses : list Address)
    (callerAddress : option Address)
| ReqBatchFetchManagers (tokenAddresses : list Address)
| ReqBatchFetchBalancesOf (tokenAddresses ownerAddresses : list Address)
    (callerAddress : option Address)
| ReqBatchFetchAllowances (tokenAddresses ownerAddresses spenderAddresses : list Address)
    (callerAddress : option Address)
| ReqController (setAddress : Address)
| ReqManager (setAddress : Address)
| ReqGetPositions (setAddress : Address) (callerAddress : option Address)
| ReqGetModules (setAddress : Address) (callerAddress : option Address)
| ReqModuleStates (setAddress moduleAddress : Address) (callerAddress : option Address)
| ReqAddModule (setAddress moduleAddress : Address) (callerAddress : option Address)
    (txOpts : TransactionOverrides)
| ReqSetManager (setAddress managerAddress : Address) (callerAddress : option Address)
    (txOpts : TransactionOverrides)
| ReqInitializeModule (setAddress : Address) (callerAddress : option Address)
    (txOpts : TransactionOverrides)
| ReqIsInitializedModule (setAddress moduleAddress : Address)
    (callerAddress : option Address)
| ReqIsPendingModule (setAddress moduleAddress : Address)
    (callerAddress : option Address).

(** A request handed to a wrapper, with the payload it was rejected with,
    if it was. *)
Record Event := {
  request : Request;
  rejection : option string
}.

Section API.

(** Everything that lives behind the wrappers: the chain, the node, and the
    wrappers' own connections. *)
Context {W : Type}.

(** A wrapper method: it acts on what is behind it and resolves to a value
    or rejects with the payload the execution layer surfaced. *)
Definition Remote (A : Type) : Type := W -> result string A * W.

Record SetTokenWrapper := {
  controller : Address -> Remote Address;
  manager_ : Address -> Remote Address;
  getPositions : Address -> option Address -> Remote (list Position);
  getModules : Address -> option Address -> Remote (list Address);
  moduleStates : Address -> Address -> option Address -> Remote ModuleState;
  addModule : Address -> Address -> option Address -> TransactionOverrides ->
              Remote ContractTransaction;
  setManager : Address -> Address -> option Address -> TransactionOverrides ->
               Remote ContractTransaction;
  initializeModule : Address -> option Address -> TransactionOverrides ->
                     Remote ContractTransaction;
  isInitializedModule : Address -> Address -> option Address -> Remote bool;
  isPendingModule : Address -> Address -> option Address -> Remote bool
}.

Record SetTokenCreatorWrapper := {
  create : list Address -> list Z -> list Address -> Address -> string -> string ->
           option Address -> TransactionOverrides -> Remote ContractTransaction
}.

Record ProtocolViewerWrapper := {
  getSetDetails : Address -> list Address -> option Address -> Remote SetDetails;
  batchFetchStreamingFeeInfo : list Address -> option Address ->
                               Remote (list StreamingFeeInfo);
  batchFetchDetails : list Address -> list Address -> option Address ->
                      Remote (list SetDetails);
  batchFetchManagers : list Address -> Remote (list Address);
  batchFetchBalancesOf : list Address -> list Address -> option Address ->
                         Remote (list Z);
  batchFetchAllowances : list Address -> list Address -> list Address ->
                         option Address -> Remote (list Z)
}.

Record ProtocolUtils := {
  getCreatedSetTokenAddress : string -> Remote Address
}.

(** The private fields of the class. *)
Record t := {
  setTokenWrapper : SetTokenWrapper;
  setTokenCreatorWrapper : SetTokenCreatorWrapper;
  protocolViewerWrapper : ProtocolViewerWrapper;
  protocolUtils : ProtocolUtils;
  assert : Assertions.t;
  streamingFeeModuleAddress : Address
}.

(** The constructor.  The wrappers it builds from [provider] and the contract
    addresses are given here as built; [assertions || new Assertions()]. *)
Definition new (stw : SetTokenWrapper) (creator : SetTokenCreatorWrapper)
    (viewer : ProtocolViewerWrapper) (utils : ProtocolUtils)
    (streamingFeeModuleAddress : Address)
    (defaultAssertions : Assertions.t) (assertions : option Assertions.t) : t :=
  {| setTokenWrapper := stw;
     setTokenCreatorWrapper := creator;
     protocolViewerWrapper := viewer;
     protocolUtils := utils;
     assert := default defaultAssertions assertions;
     streamingFeeModuleAddress := streamingFeeModuleAddress |}.

(** What a method body runs against: the instance, what is behind the
    wrappers, and the requests handed to the wrappers so far, oldest first. *)
Record St := {
  this : t;
  world : W;
  trace : list Event
}.

(** The monad of method bodies: state passing, with rejection. A rejection
    keeps the state reached (nothing is rolled back). *)
Definition M (A : Type) : Type := St -> result Error A * St.

#[export] Instance M_ret : MRet M := fun A a st => (Ok a, st).

#[export] Instance M_bind : MBind M := fun A B f m st =>
  match m st with
  | (Ok a, st') => f a st'
  | (Err e, st') => (Err e, st')
  end.

#[export] Instance M_fmap : FMap M := fun A B f m st =>
  match m st with
  | (Ok a, st') => (Ok (f a), st')
  | (Err e, st') => (Err e, st')
  end.

(** [array.push(x)]. *)
Definition push {A} (array : list A) (x : A) : list A := (array ++ [x])%list.

(** Read a field of [this]. *)
Definition self : M t := fun st => (Ok (this st), st).

(** A synchronous assertion: continue, or throw. *)
Definition check (r : result Error ()) : M () := fun st =>
  match r with
  | Ok _ => (Ok (), st)
  | Err e => (Err e, st)
  end.

Definition throw {A} (e : Error) : M A := fun st => (Err e, st).

(** [await wrapper.method(args)]: the request is handed over, acts behind
    the wrapper, and its rejection (if any) is re-raised unchanged. *)
Definition delegate {A} (req : Request) (f : Remote A) : M A := fun st =>
  let '(r, w) := f (world st) in
  let log (outcome : option string) :=
    {| this := this st; world := w;
       trace := push (trace st) {| request := req; rejection := outcome |} |} in
  match r with
  | Ok a => (Ok a, log None)
  | Err payload => (Err (RemoteError payload), log (Some payload))
  end.

(** [array.map(callback)] with a callback that can throw. *)
Fixpoint mapM {A B} (f : A -> M B) (l : list A) : M (list B) :=
  match l with
  | [] => mret []
  | x :: rest => y ← f x; ys ← mapM f rest; mret (y :: ys)
  end.

(** [array.forEach(callback)] with a callback that updates local variables
    [S] and can throw. *)
Fixpoint forEach {A S} (f : A -> S -> M S) (l : list A) (s : S) : M S :=
  match l with
  | [] => mret s
  | x :: rest => s' ← f x s; forEach f rest s'
  end.

(** The first assertion that throws when [g] is applied along a list. *)
Fixpoint first_error {A} (g : A -> result Error ()) (l : list A) : option Error :=
  match l with
  | [] => None
  | x :: rest =>
      match g x with
      | Err e => Some e
      | Ok _ => first_error g rest
      end
  end.

(** *** The public methods *)

Definition createAsync (componentAddresses : list Address) (units : list Z)
    (moduleAddresses : list Address) (managerAddress : Address)
    (name symbol : string) (callerAddress : option Address)
    (txOpts : TransactionOverrides) : M ContractTransaction :=
  api ← self;
  check (Assertions.isNotEmptyArray (Assertions.common (assert api)) componentAddresses
           "Component addresses must contain at least one component.");;
  check (Assertions.isEqualLength (Assertions.common (assert api)) componentAddresses units
           "Component addresses and units must be equal length.");;
  check (Assertions.isValidAddressList (Assertions.schema (assert api))
           "componentAddresses" componentAddresses);;
  check (Assertions.isValidAddressList (Assertions.schema (assert api))
           "moduleAddresses" moduleAddresses);;
  check (Assertions.isValidAddress (Assertions.schema (assert api))
           "managerAddress" managerAddress);;
  delegate
    (ReqCreate componentAddresses units moduleAddresses managerAddress name symbol
       callerAddress txOpts)
    (create (setTokenCreatorWrapper api) componentAddresses units moduleAddresses
       managerAddress name symbol callerAddress txOpts).

Definition getSetAddressFromCreateHash (txHash : string) : M Address :=
  api ← self;
  check (Assertions.isValidBytes32 (Assertions.schema (assert api)) "txHash" txHash);;
  delegate (ReqGetCreatedSetTokenAddress txHash)
    (getCreatedSetTokenAddress (protocolUtils api) txHash).

Definition fetchSetDetailsAsync (setTokenAddress : Address)
    (moduleAddresses : list Address) (callerAddress : option Address) : M JsObject :=
  api ← self;
  check (Assertions.isValidAddress (Assertions.schema (assert api))
           "setTokenAddress" setTokenAddress);;
  check (Assertions.isValidAddressList (Assertions.schema (assert api))
           "moduleAddresses" moduleAddresses);;
  setDetails ← delegate
    (ReqGetSetDetails setTokenAddress moduleAddresses callerAddress)
    (getSetDetails (protocolViewerWrapper api) setTokenAddress moduleAddresses
       callerAddress);
  api ← self;
  let shouldIncludeStreamingFee :=
    bool_decide (streamingFeeModuleAddress api ∈ modules setDetails) in
  if negb shouldIncludeStreamingFee then mret (SetDetails_object setDetails)
  else
    infos ← delegate
      (ReqBatchFetchStreamingFeeInfo [setTokenAddress] callerAddress)
      (batchFetchStreamingFeeInfo (protocolViewerWrapper api) [setTokenAddress]
         callerAddress);
    match infos with
    | [] => throw (TypeError "Cannot read property 'feeRecipient' of undefined")
    | streamingFeeInfo :: _ =>
        mret (<["unaccruedFees" := VBigNumber (unaccruedFees streamingFeeInfo)]>
              (<["streamingFeePercentage" :=
                   VBigNumber (streamingFeePercentage streamingFeeInfo)]>
              (<["feeRecipient" := VString (feeRecipient streamingFeeInfo)]>
              (SetDetails_object setDetails))))
    end.

Definition batchFetchSetDetailsAsync (setTokenAddresses moduleAddresses : list Address)
    (callerAddress : option Address) : M (list SetDetails) :=
  api ← self;
  check (Assertions.isValidAddressList (Assertions.schema (assert api))
           "setTokenAddresses" setTokenAddresses);;
  check (Assertions.isValidAddressList (Assertions.schema (assert api))
           "moduleAddresses" moduleAddresses);;
  batchSetDetails ← delegate
    (ReqBatchFetchDetails setTokenAddresses moduleAddresses callerAddress)
    (batchFetchDetails (protocolViewerWrapper api) setTokenAddresses moduleAddresses
       callerAddress);
  mret batchSetDetails.

Definition batchFetchManagersAsync (tokenAddresses : list Address) : M (list Address) :=
  api ← self;
  delegate (ReqBatchFetchManagers tokenAddresses)
    (batchFetchManagers (protocolViewerWrapper api) tokenAddresses).

Definition batchFetchBalancesOfAsync (tokenAddresses : list Address)
    (userAddress : Address) (callerAddress : option Address) : M (list Z) :=
  api ← self;
  check (Assertions.isValidAddress (Assertions.schema (assert api))
           "userAddress" userAddress);;
  ownerAddresses ← mapM (fun tokenAddress =>
      check (Assertions.isValidAddress (Assertions.schema (assert api))
               "tokenAddress" tokenAddress);;
      mret userAddress) tokenAddresses;
  delegate (ReqBatchFetchBalancesOf tokenAddresses ownerAddresses callerAddress)
    (batchFetchBalancesOf (protocolViewerWrapper api) tokenAddresses ownerAddresses
       callerAddress).

Definition batchFetchAllowancesAsync (tokenAddresses : list Address)
    (ownerAddress spenderAddress : Address) (callerAddress : option Address)
    : M (list Z) :=
  api ← self;
  check (Assertions.isValidAddress (Assertions.schema (assert api))
           "ownerAddress" ownerAddress);;
  check (Assertions.isValidAddress (Assertions.schema (assert api))
           "spenderAddress" spenderAddress);;
  '(ownerAddresses, spenderAddresses) ← forEach
    (fun tokenAddress (arrays : list Address * list Address) =>
      check (Assertions.isValidAddress (Assertions.schema (assert api))
               "tokenAddress" tokenAddress);;
      mret (push arrays.1 ownerAddress, push arrays.2 spenderAddress))
    tokenAddresses ([], []);
  delegate
    (ReqBatchFetchAllowances tokenAddresses ownerAddresses spenderAddresses
       callerAddress)
    (batchFetchAllowances (protocolViewerWrapper api) tokenAddresses ownerAddresses
       spenderAddresses callerAddress).

Definition getControllerAddressAsync (setAddress : Address) : M Address :=
  api ← self;
  check (Assertions.isValidAddress (Assertions.schema (assert api))
           "setAddress" setAddress);;
  delegate (ReqController setAddress) (controller (setTokenWrapper api) setAddress).

Definition getManagerAddressAsync (setAddress : Address) : M Address :=
  api ← self;
  check (Assertions.isValidAddress (Assertions.schema (assert api))
           "setAddress" setAddress);;
  delegate (ReqManager setAddress) (manager_ (setTokenWrapper api) setAddress).

Definition getPositionsAsync (setAddress : Address) (callerAddress : option Address)
    : M (list Position) :=
  api ← self;
  check (Assertions.isValidAddress (Assertions.schema (assert api))
           "setAddress" setAddress);;
  delegate (ReqGetPositions setAddress callerAddress)
    (getPositions (setTokenWrapper api) setAddress callerAddress).

Definition getModulesAsync (setAddress : Address) (callerAddress : option Address)
    : M (list Address) :=
  api ← self;
  check (Assertions.isValidAddress (Assertions.schema (assert api))
           "setAddress" setAddress);;
  delegate (ReqGetModules setAddress callerAddress)
    (getModules (setTokenWrapper api) setAddress callerAddress).

Definition getModuleStateAsync (setAddress moduleAddress : Address)
    (callerAddress : option Address) : M ModuleState :=
  api ← self;
  check (Assertions.isValidAddress (Assertions.schema (assert api))
           "setAddress" setAddress);;
  check (Assertions.isValidAddress (Assertions.schema (assert api))
           "moduleAddress" moduleAddress);;
  delegate (ReqModuleStates setAddress moduleAddress callerAddress)
    (moduleStates (setTokenWrapper api) setAddress moduleAddress callerAddress).

Definition addModuleAsync (setAddress moduleAddress : Address)
    (callerAddress : option Address) (txOpts : TransactionOverrides)
    : M ContractTransaction :=
  api ← self;
  check (Assertions.isValidAddress (Assertions.schema (assert api))
           "setAddress" setAddress);;
  check (Assertions.isValidAddress (Assertions.schema (assert api))
           "moduleAddress" moduleAddress);;
  delegate (ReqAddModule setAddress moduleAddress callerAddress txOpts)
    (addModule (setTokenWrapper api) setAddress moduleAddress callerAddress txOpts).

Definition setManagerAsync (setAddress managerAddress : Address)
    (callerAddress : option Address) (txOpts : TransactionOverrides)
    : M ContractTransaction :=
  api ← self;
  check (Assertions.isValidAddress (Assertions.schema (assert api))
           "setAddress" setAddress);;
  check (Assertions.isValidAddress (Assertions.schema (assert api))
           "managerAddress" managerAddress);;
  delegate (ReqSetManager setAddress managerAddress callerAddress txOpts)
    (setManager (setTokenWrapper api) setAddress managerAddress callerAddress txOpts).

Definition initializeModuleAsync (setAddress : Address)
    (callerAddress : option Address) (txOpts : TransactionOverrides)
    : M ContractTransaction :=
  api ← self;
  check (Assertions.isValidAddress (Assertions.schema (assert api))
           "setAddress" setAddress);;
  delegate (ReqInitializeModule setAddress callerAddress txOpts)
    (initializeModule (setTokenWrapper api) setAddress callerAddress txOpts).

Definition isModuleEnabledAsync (setAddress moduleAddress : Address)
    (callerAddress : option Address) : M bool :=
  api ← self;
  check (Assertions.isValidAddress (Assertions.schema (assert api))
           "setAddress" setAddress);;
  check (Assertions.isValidAddress (Assertions.schema (assert api))
           "moduleAddress" moduleAddress);;
  delegate (ReqIsInitializedModule setAddress moduleAddress callerAddress)
    (isInitializedModule (setTokenWrapper api) setAddress moduleAddress callerAddress).

Definition isModulePendingAsync (setAddress moduleAddress : Address)
    (callerAddress : option Address) : M bool :=
  api ← self;
  check (Assertions.isValidAddress (Assertions.schema (assert api))
           "setAddress" setAddress);;
  check (Assertions.isValidAddress (Assertions.schema (assert api))
           "moduleAddress" moduleAddress);;
  delegate (ReqIsPendingModule setAddress moduleAddress callerAddress)
    (isPendingModule (setTokenWrapper api) setAddress moduleAddress callerAddress).

(** *** The methods as one family of calls *)

Inductive Op :=
| CreateAsync (componentAddresses : list Address) (units : list Z)
    (moduleAddresses : list Address) (managerAddress : Address)
    (name symbol : string) (callerAddress : option Address)
    (txOpts : TransactionOverrides)
| GetSetAddressFromCreateHash (txHash : string)
| FetchSetDetailsAsync (setTokenAddress : Address) (moduleAddresses : list Address)
    (callerAddress : option Address)
| BatchFetchSetDetailsAsync (setTokenAddresses moduleAddresses : list Address)
    (callerAddress : option Address)
| BatchFetchManagersAsync (tokenAddresses : list Address)
| BatchFetchBalancesOfAsync (tokenAddresses : list Address) (userAddress : Address)
    (callerAddress : option Address)
| BatchFetchAllowancesAsync (tokenAddresses : list Address)
    (ownerAddress spenderAddress : Address) (callerAddress : option Address)
| GetControllerAddressAsync (setAddress : Address)
| GetManagerAddressAsync (setAddress : Address)
| GetPositionsAsync (setAddress : Address) (callerAddress : option Address)
| GetModulesAsync (setAddress : Address) (callerAddress : option Address)
| GetModuleStateAsync (setAddress moduleAddress : Address)
    (callerAddress : option Address)
| AddModuleAsync (setAddress moduleAddress : Address) (callerAddress : option Address)
    (txOpts : TransactionOverrides)
| SetManagerAsync (setAddress managerAddress : Address)
    (callerAddress : option Address) (txOpts : TransactionOverrides)
| InitializeModuleAsync (setAddress : Address) (callerAddress : option Address)
    (txOpts : TransactionOverrides)
| IsModuleEnabledAsync (setAddress moduleAddress : Address)
    (callerAddress : option Address)
| IsModulePendingAsync (setAddress moduleAddress : Address)
    (callerAddress : option Address).

(** What a call resolves to. *)
Inductive Output :=
| OutTransaction (tx : ContractTransaction)
| OutAddress (a : Address)
| OutObject (o : JsObject)
| OutSetDetailsList (l : list SetDetails)
| OutAddresses (l : list Address)
| OutBigNumbers (l : list Z)
| OutPositions (l : list Position)
| OutModuleState (s : ModuleState)
| OutBool (b : bool).

Definition run (op : Op) : M Output :=
  match op with
  | CreateAsync c u m mgr n s caller tx =>
      OutTransaction <$> createAsync c u m mgr n s caller tx
  | GetSetAddressFromCreateHash h => OutAddress <$> getSetAddressFromCreateHash h
  | FetchSetDetailsAsync a m caller => OutObject <$> fetchSetDetailsAsync a m caller
  | BatchFetchSetDetailsAsync a m caller =>
      OutSetDetailsList <$> batchFetchSetDetailsAsync a m caller
  | BatchFetchManagersAsync l => OutAddresses <$> batchFetchManagersAsync l
  | BatchFetchBalancesOfAsync l u caller =>
      OutBigNumbers <$> batchFetchBalancesOfAsync l u caller
  | BatchFetchAllowancesAsync l o s caller =>
      OutBigNumbers <$> batchFetchAllowancesAsync l o s caller
  | GetControllerAddressAsync a => OutAddress <$> getControllerAddressAsync a
  | GetManagerAddressAsync a => OutAddress <$> getManagerAddressAsync a
  | GetPositionsAsync a caller => OutPositions <$> getPositionsAsync a caller
  | GetModulesAsync a caller => OutAddresses <$> getModulesAsync a caller
  | GetModuleStateAsync a m caller => OutModuleState <$> getModuleStateAsync a m caller
  | AddModuleAsync a m caller tx => OutTransaction <$> addModuleAsync a m caller tx
  | SetManagerAsync a m caller tx => OutTransaction <$> setManagerAsync a m caller tx
  | InitializeModuleAsync a caller tx =>
      OutTransaction <$> initializeModuleAsync a caller tx
  | IsModuleEnabledAsync a m caller => OutBool <$> isModuleEnabledAsync a m caller
  | IsModulePendingAsync a m caller => OutBool <$> isModulePendingAsync a m caller
  end.

(** The [Address]-typed arguments of a call, by parameter name; an array
    argument contributes each of its elements. *)
Definition address_arguments (op : Op) : list (string * Address) :=
  let named (n : string) (l : list Address) := (fun a => (n, a)) <$> l in
  let caller (c : option Address) := named "callerAddress" (option_list c) in
  (match op with
  | CreateAsync c _ m mgr _ _ cl _ =>
      named "componentAddresses" c ++ named "moduleAddresses" m
      ++ [("managerAddress", mgr)] ++ caller cl
  | GetSetAddressFromCreateHash _ => []
  | FetchSetDetailsAsync a m cl =>
      [("setTokenAddress", a)] ++ named "moduleAddresses" m ++ caller cl
  | BatchFetchSetDetailsAsync a m cl =>
      named "setTokenAddresses" a ++ named "moduleAddresses" m ++ caller cl
  | BatchFetchManagersAsync l => named "tokenAddresses" l
  | BatchFetchBalancesOfAsync l u cl =>
      named "tokenAddresses" l ++ [("userAddress", u)] ++ caller cl
  | BatchFetchAllowancesAsync l o s cl =>
      named "tokenAddresses" l ++ [("ownerAddress", o); ("spenderAddress", s)]
      ++ caller cl
  | GetControllerAddressAsync a | GetManagerAddressAsync a => [("setAddress", a)]
  | GetPositionsAsync a cl | GetModulesAsync a cl | InitializeModuleAsync a cl _ =>
      [("setAddress", a)] ++ caller cl
  | GetModuleStateAsync a m cl | AddModuleAsync a m cl _
  | IsModuleEnabledAsync a m cl | IsModulePendingAsync a m cl =>
      [("setAddress", a); ("moduleAddress", m)] ++ caller cl
  | SetManagerAsync a m cl _ =>
      [("setAddress", a); ("managerAddress", m)] ++ caller cl
  end)%list.

(** The calls that send no transaction: every one but [createAsync],
    [addModuleAsync], [setManagerAsync] and [initializeModuleAsync], which
    take [txOpts]. *)
Definition is_read (op : Op) : bool :=
  match op with
  | CreateAsync _ _ _ _ _ _ _ _ | AddModuleAsync _ _ _ _
  | SetManagerAsync _ _ _ _ | InitializeModuleAsync _ _ _ => false
  | _ => true
  end.

(** The requests a computation hands to the wrappers when run from [st]. *)
Definition events {A} (m : M A) (st : St) : list Event :=
  drop (length (trace st)) (trace (snd (m st))).

(** A computation that never assigns to a field of [this]. *)
Definition keeps_this {A} (m : M A) : Prop :=
  ∀ st, this (snd (m st)) = this st.

Definition all_resolved (evs : list Event) : Prop :=
  Forall (fun ev => rejection ev = None) evs.

(** A computation that stops at the first request that is rejected, with
    the payload of that rejection as its error: its requests all resolved,
    or all but the last one did and the last one's payload is the outcome. *)
Definition fails_fast {A} (m : M A) : Prop :=
  ∀ st, ∃ evs,
    trace (snd (m st)) = (trace st ++ evs)%list
    ∧ (all_resolved evs
       ∨ ∃ pre ev payload,
           evs = (pre ++ [ev])%list ∧ all_resolved pre
           ∧ rejection ev = Some payload
           ∧ fst (m st) = Err (RemoteError payload)).

(** A computation that neither hands anything to a wrapper nor changes
    anything else. *)
Definition silent {A} (m : M A) : Prop := ∀ st, snd (m st) = st.

(** A computation that only adds to the log, at most [n] requests, and that
    leaves everything as it was when it adds none. *)
Definition logs_at_most {A} (n : nat) (m : M A) : Prop :=
  ∀ st, ∃ evs,
    trace (snd (m st)) = (trace st ++ evs)%list
    ∧ (length evs ≤ n)%nat
    ∧ (evs = [] → snd (m st) = st).

(** A computation that never ends in a validation error. *)
Definition never_validation {A} (m : M A) : Prop :=
  ∀ st message, fst (m st) ≠ Err (ValidationError message).

(** A computation whose validation errors come before anything else it
    does. *)
Definition validates_first {A} (m : M A) : Prop :=
  ∀ st message, fst (m st) = Err (ValidationError message) → snd (m st) = st.

End API.

Arguments SetTokenWrapper : clear implicits.
Arguments SetTokenCreatorWrapper : clear implicits.
Arguments ProtocolViewerWrapper : clear implicits.
Arguments ProtocolUtils : clear implicits.
Arguments t : clear implicits.
Arguments St : clear implicits.
Arguments M : clear implicits.
Arguments Remote : clear implicits.

(** An instance built by the constructor with the default assertions for the
    given address and hash formats, in a state of the world, with the
    requests logged so far. *)
Definition instance {W} (wellFormed : Address -> bool) (wellFormedBytes32 : string -> bool)
    (stw : SetTokenWrapper W) (creator : SetTokenCreatorWrapper W)
    (viewer : ProtocolViewerWrapper W) (utils : ProtocolUtils W)
    (streamingFeeModuleAddress : Address) (w : W) (log : list Event) : St W :=
  {| this := new stw creator viewer utils streamingFeeModuleAddress
               (Assertions.new wellFormed wellFormedBytes32) None;
     world := w;
     trace := log |}.

End SetTokenAPI.

(** ** The contract wrappers behind the API *)

Module Wrappers.

Section Layer.

(** What the deployed contracts hold: the chain. *)
Context {R : Type}.

(** A call of a [view] function of a contract reads the chain; a
    transaction may change it. *)
Definition View (A : Type) : Type := R -> result string A.
Definition Transaction (A : Type) : Type := R -> result string A * R.

(** Modelled from the spec: what lies behind the API.  The wrappers hold
    the "ContractCache: process-wide map from a composite key (contract
    kind, address, caller identity) to a connected contract handle" and
    nothing else ("no global mutable state beyond the per-process connection
    cache"); the entities are "externally-owned state", on the chain. *)
Record World := {
  contracts : ContractWrapper.State;
  chain : R
}.

(** Modelled from the spec: the "fixed contract interface" of a deployed
    SetToken (the contract is not among the sources), by contract address.
    A transaction is given the address it is sent from, before [txOpts]. *)
Record SetTokenInterface := {
  controller : Address -> View Address;
  manager_ : Address -> View Address;
  getPositions : Address -> View (list Position);
  getModules : Address -> View (list Address);
  moduleStates : Address -> Address -> View ModuleState;
  isInitializedModule : Address -> Address -> View bool;
  isPendingModule : Address -> Address -> View bool;
  addModule : Address -> Address -> Address -> TransactionOverrides ->
              Transaction ContractTransaction;
  setManager : Address -> Address -> Address -> TransactionOverrides ->
               Transaction ContractTransaction;
  initializeModule : Address -> Address -> TransactionOverrides ->
                     Transaction ContractTransaction
}.

(** Modelled from the spec: the interface of the SetTokenCreator. *)
Record SetTokenCreatorInterface := {
  create : Address -> list Address -> list Z -> list Address -> Address ->
           string -> string -> Address -> TransactionOverrides ->
           Transaction ContractTransaction
}.

(** Modelled from the spec: the interface of the ProtocolViewer, the
    "multi-address batched reads (balances, allowances, managers, set
    details)"; the streaming-fee read is given the fee module's address. *)
Record ProtocolViewerInterface := {
  getSetDetails : Address -> Address -> list Address -> View SetDetails;
  batchFetchStreamingFeeInfo : Address -> Address -> list Address ->
                               View (list StreamingFeeInfo);
  batchFetchDetails : Address -> list Address -> list Address ->
                      View (list SetDetails);
  batchFetchManagers : Address -> list Address -> View (list Address);
  batchFetchBalancesOf : Address -> list Address -> list Address -> View (list Z);
  batchFetchAllowances : Address -> list Address -> list Address -> list Address ->
                         View (list Z)
}.

(** Modelled from the spec: what is deployed, the "fixed set of deployed
    smart contracts" the wrappers are bound to; [createdSetToken] is the
    address a creation transaction's receipt gives. *)
Record Deployed := {
  setToken : SetTokenInterface;
  setTokenCreator : SetTokenCreatorInterface;
  protocolViewer : ProtocolViewerInterface;
  createdSetToken : string -> View Address
}.

(** The [load*Async] call for a kind of contract: five take the caller's
    address, three the signer. *)
Definition loader (kind : ContractWrapper.ContractKind) (address : Address)
    (callerAddress : option Address) (p : ContractWrapper.Provider)
    : ContractWrapper.Method :=
  let signer := ContractWrapper.getSigner p callerAddress in
  match kind with
  | ContractWrapper.Controller =>
      ContractWrapper.LoadControllerContractAsync address signer
  | ContractWrapper.ERC20 => ContractWrapper.LoadERC20Async address callerAddress
  | ContractWrapper.BasicIssuanceModule =>
      ContractWrapper.LoadBasicIssuanceModuleAsync address callerAddress
  | ContractWrapper.TradeModule =>
      ContractWrapper.LoadTradeModuleAsync address callerAddress
  | ContractWrapper.SetToken => ContractWrapper.LoadSetTokenAsync address callerAddress
  | ContractWrapper.SetTokenCreator =>
      ContractWrapper.LoadSetTokenCreatorAsync address signer
  | ContractWrapper.StreamingFeeModule =>
      ContractWrapper.LoadStreamingFeeModuleAsync address callerAddress
  | ContractWrapper.ProtocolViewer =>
      ContractWrapper.LoadProtocolViewerContractAsync address signer
  end.

(** Modelled from the spec: a wrapper method, "a 1:1 typed proxy over a
    remote contract's methods (encode call, send, decode return value,
    optionally memoize the contract instance)".  The handle is loaded through
    the [ContractWrapper] for the caller's signer, and the contract method is
    called on it, from the address that signer reports.  A caller whose
    signer gives no address is rejected before anything is sent. *)
Definition connected {A} (kind : ContractWrapper.ContractKind) (address : Address)
    (callerAddress : option Address) (method : Address -> Transaction A)
    : SetTokenAPI.Remote World A := fun w =>
  let p := ContractWrapper.provider (contracts w) in
  let '(handle, loaded) :=
    ContractWrapper.call (loader kind address callerAddress p) (contracts w) in
  match handle, ContractWrapper.getAddress (ContractWrapper.getSigner p callerAddress) with
  | Ok _, Some sender =>
      let '(r, ch) := method sender (chain w) in
      (r, {| contracts := loaded; chain := ch |})
  | _, _ => (Err "unknown account", {| contracts := loaded; chain := chain w |})
  end.

(** Modelled from the spec: a wrapper method over a [view] function, which
    cannot change the chain. *)
Definition viewing {A} (kind : ContractWrapper.ContractKind) (address : Address)
    (callerAddress : option Address) (method : View A)
    : SetTokenAPI.Remote World A :=
  connected kind address callerAddress (fun _ ch => (method ch, ch)).

(** Modelled from the spec: the [SetTokenWrapper] of the API (its methods
    other than [popPosition] are not among the sources). *)
Definition setTokenWrapper (c : SetTokenInterface) : SetTokenAPI.SetTokenWrapper World :=
  {| SetTokenAPI.controller := fun a =>
       viewing ContractWrapper.SetToken a None (controller c a);
     SetTokenAPI.manager_ := fun a =>
       viewing ContractWrapper.SetToken a None (manager_ c a);
     SetTokenAPI.getPositions := fun a caller =>
       viewing ContractWrapper.SetToken a caller (getPositions c a);
     SetTokenAPI.getModules := fun a caller =>
       viewing ContractWrapper.SetToken a caller (getModules c a);
     SetTokenAPI.moduleStates := fun a m caller =>
       viewing ContractWrapper.SetToken a caller (moduleStates c a m);
     SetTokenAPI.addModule := fun a m caller txOpts =>
       connected ContractWrapper.SetToken a caller
         (fun sender => addModule c a m sender txOpts);
     SetTokenAPI.setManager := fun a m caller txOpts =>
       connected ContractWrapper.SetToken a caller
         (fun sender => setManager c a m sender txOpts);
     SetTokenAPI.initializeModule := fun a caller txOpts =>
       connected ContractWrapper.SetToken a caller
         (fun sender => initializeModule c a sender txOpts);
     SetTokenAPI.isInitializedModule := fun a m caller =>
       viewing ContractWrapper.SetToken a caller (isInitializedModule c a m);
     SetTokenAPI.isPendingModule := fun a m caller =>
       viewing ContractWrapper.SetToken a caller (isPendingModule c a m) |}.

(** Modelled from the spec: [new SetTokenCreatorWrapper(provider,
    setTokenCreatorAddress)]. *)
Definition setTokenCreatorWrapper (c : SetTokenCreatorInterface)
    (setTokenCreatorAddress : Address) : SetTokenAPI.SetTokenCreatorWrapper World :=
  {| SetTokenAPI.create := fun components units modules managerAddress name symbol
                               caller txOpts =>
       connected ContractWrapper.SetTokenCreator setTokenCreatorAddress caller
         (fun sender => create c setTokenCreatorAddress components units modules
                          managerAddress name symbol sender txOpts) |}.

(** Modelled from the spec: [new ProtocolViewerWrapper(provider,
    protocolViewerAddress, streamingFeeModuleAddress)]. *)
Definition protocolViewerWrapper (c : ProtocolViewerInterface)
    (protocolViewerAddress streamingFeeModuleAddress : Address)
    : SetTokenAPI.ProtocolViewerWrapper World :=
  let viewer {A} caller (method : View A) :=
    viewing ContractWrapper.ProtocolViewer protocolViewerAddress caller method in
  {| SetTokenAPI.getSetDetails := fun a modules caller =>
       viewer caller (getSetDetails c protocolViewerAddress a modules);
     SetTokenAPI.batchFetchStreamingFeeInfo := fun sets caller =>
       viewer caller (batchFetchStreamingFeeInfo c protocolViewerAddress
                        streamingFeeModuleAddress sets);
     SetTokenAPI.batchFetchDetails := fun sets modules caller =>
       viewer caller (batchFetchDetails c protocolViewerAddress sets modules);
     SetTokenAPI.batchFetchManagers := fun tokens =>
       viewer None (batchFetchManagers c protocolViewerAddress tokens);
     SetTokenAPI.batchFetchBalancesOf := fun tokens owners caller =>
       viewer caller (batchFetchBalancesOf c protocolViewerAddress tokens owners);
     SetTokenAPI.batchFetchAllowances := fun tokens owners spenders caller =>
       viewer caller (batchFetchAllowances c protocolViewerAddress tokens owners
                        spenders) |}.

(** Modelled from the spec: [new ProtocolUtils(provider)], which reads a
    transaction's receipt through the provider and connects no contract. *)
Definition protocolUtils (receipt : string -> View Address)
    : SetTokenAPI.ProtocolUtils World :=
  {| SetTokenAPI.getCreatedSetTokenAddress := fun txHash w =>
       (receipt txHash (chain w), w) |}.

(** The constructor of [SetTokenAPI], building these wrappers from the
    contract addresses; the provider it is given is the one of the
    [ContractWrapper] behind them. *)
Definition api (d : Deployed)
    (protocolViewerAddress streamingFeeModuleAddress setTokenCreatorAddress : Address)
    (defaultAssertions : Assertions.t) (assertions : option Assertions.t)
    : SetTokenAPI.t World :=
  SetTokenAPI.new (setTokenWrapper (setToken d))
    (setTokenCreatorWrapper (setTokenCreator d) setTokenCreatorAddress)
    (protocolViewerWrapper (protocolViewer d) protocolViewerAddress
       streamingFeeModuleAddress)
    (protocolUtils (createdSetToken d))
    streamingFeeModuleAddress defaultAssertions assertions.

(** What a call may do to what lies behind the wrappers: the wrapper-held
    state after it is what [load*Async] calls made of the one before, and a
    read leaves the chain as it is. *)
Definition step (reading : bool) (w w' : World) : Prop :=
  (∃ loads, contracts w' = ContractWrapper.calls loads (contracts w))
  ∧ (reading = true → chain w' = chain w).

(** A method body that, run on the instance [api0], leaves the instance as
    it is and moves what lies behind the wrappers by such steps only. *)
Definition evolves {A} (api0 : SetTokenAPI.t World) (reading : bool)
    (m : SetTokenAPI.M World A) : Prop :=
  ∀ st, SetTokenAPI.this st = api0 →
    SetTokenAPI.this (snd (m st)) = api0
    ∧ step reading (SetTokenAPI.world st) (SetTokenAPI.world (snd (m st))).

End Layer.

Arguments World : clear implicits.
Arguments SetTokenInterface : clear implicits.
Arguments SetTokenCreatorInterface : clear implicits.
Arguments ProtocolViewerInterface : clear implicits.
Arguments Deployed : clear implicits.
Arguments View : clear implicits.
Arguments Transaction : clear implicits.

End Wrappers.

(** ** The SetToken contract behind the wrapper *)

Module SetTokenContract.

(** Modelled from the spec: the state of one deployed SetToken (the contract
    is not among the sources): its manager, the state of each module
    ("enum {NONE, PENDING, INITIALIZED}"), its module and position lists, and
    the lock the wrapper tests exercise. *)
Record SetToken := {
  controllerAddress : Address;
  managerAddress : Address;
  states : gmap Address ModuleState;
  moduleList : list Address;
  positionList : list Position;
  isLocked : bool
}.

(** Modelled from the spec: the chain the provider talks to: deployed
    SetTokens, the modules the Controller has enabled ("a controller-gated
    lifecycle"), and the account used when no caller is named. *)
Record Chain := {
  sets : gmap Address SetToken;
  enabledModules : gset Address;
  defaultAccount : Address
}.

Definition sender (ch : Chain) (callerAddress : option Address) : Address :=
  default (defaultAccount ch) callerAddress.

Definition stateOf (s : SetToken) (moduleAddress : Address) : ModuleState :=
  default NONE (states s !! moduleAddress).

Definition update (ch : Chain) (setAddress : Address) (s : SetToken) : Chain :=
  {| sets := <[setAddress := s]> (sets ch);
     enabledModules := enabledModules ch;
     defaultAccount := defaultAccount ch |}.

Definition setState (s : SetToken) (moduleAddress : Address) (ms : ModuleState)
    (newModules : list Address) : SetToken :=
  {| controllerAddress := controllerAddress s;
     managerAddress := managerAddress s;
     states := <[moduleAddress := ms]> (states s);
     moduleList := newModules;
     positionList := positionList s;
     isLocked := isLocked s |}.

(** A read of a deployed SetToken. *)
Definition view {A} (f : SetToken -> A) (setAddress : Address)
    : Wrappers.View Chain A := fun ch =>
  match sets ch !! setAddress with
  | None => Err "call exception"
  | Some s => Ok (f s)
  end.

(** Modelled from the spec: the remote [addModule] ("addModule → PENDING"),
    with the reverts the wrapper tests name: only the manager may call, the
    module must not be added yet, and the Controller must have enabled it. *)
Definition addModule (setAddress moduleAddress : Address)
    (callerAddress : option Address) (txOpts : TransactionOverrides)
    : Wrappers.Transaction Chain ContractTransaction := fun ch =>
  match sets ch !! setAddress with
  | None => (Err "call exception", ch)
  | Some s =>
      if negb (String.eqb (sender ch callerAddress) (managerAddress s))
      then (Err "Only manager can call", ch)
      else if negb (bool_decide (stateOf s moduleAddress = NONE))
      then (Err "Module must not be added", ch)
      else if negb (bool_decide (moduleAddress ∈ enabledModules ch))
      then (Err "Must be enabled on Controller", ch)
      else (Ok "addModule",
            update ch setAddress (setState s moduleAddress PENDING (moduleList s)))
  end.

(** Modelled from the spec: the remote [initializeModule], called by the
    module itself ("initializeModule → INITIALIZED"; "initializing a
    non-pending module fails"), with the reverts the wrapper tests name. *)
Definition initializeModule (setAddress : Address)
    (callerAddress : option Address) (txOpts : TransactionOverrides)
    : Wrappers.Transaction Chain ContractTransaction := fun ch =>
  match sets ch !! setAddress with
  | None => (Err "call exception", ch)
  | Some s =>
      let moduleAddress := sender ch callerAddress in
      if isLocked s then (Err "Only when unlocked", ch)
      else if negb (bool_decide (stateOf s moduleAddress = PENDING))
      then (Err "Module must be pending", ch)
      else (Ok "initializeModule",
            update ch setAddress
              (setState s moduleAddress INITIALIZED
                 (SetTokenAPI.push (moduleList s) moduleAddress)))
  end.

(** Modelled from the spec: the remote [setManager]; the wrapper tests name
    its revert for a caller who is not the manager. *)
Definition setManager (setAddress newManager : Address)
    (callerAddress : option Address) (txOpts : TransactionOverrides)
    : Wrappers.Transaction Chain ContractTransaction := fun ch =>
  match sets ch !! setAddress with
  | None => (Err "call exception", ch)
  | Some s =>
      if negb (String.eqb (sender ch callerAddress) (managerAddress s))
      then (Err "Only manager can call", ch)
      else (Ok "setManager",
            update ch setAddress
              {| controllerAddress := controllerAddress s;
                 managerAddress := newManager;
                 states := states s;
                 moduleList := moduleList s;
                 positionList := positionList s;
                 isLocked := isLocked s |})
  end.

(** Modelled from the spec: the deployed SetTokens as the wrapper reaches
    them, each transaction sent from the caller's account. *)
Definition interface : Wrappers.SetTokenInterface Chain :=
  {| Wrappers.controller := view controllerAddress;
     Wrappers.manager_ := view managerAddress;
     Wrappers.getPositions := view positionList;
     Wrappers.getModules := view moduleList;
     Wrappers.moduleStates := fun a m => view (fun s => stateOf s m) a;
     Wrappers.isInitializedModule := fun a m =>
       view (fun s => bool_decide (stateOf s m = INITIALIZED)) a;
     Wrappers.isPendingModule := fun a m =>
       view (fun s => bool_decide (stateOf s m = PENDING)) a;
     Wrappers.addModule := fun a m sender => addModule a m (Some sender);
     Wrappers.setManager := fun a m sender => setManager a m (Some sender);
     Wrappers.initializeModule := fun a sender => initializeModule a (Some sender) |}.

(** Modelled from the spec: the [SetTokenWrapper] of the API over these
    contracts ("the wrapper only observes state, never enforces the state
    machine"). *)
Definition wrapper : SetTokenAPI.SetTokenWrapper (Wrappers.World Chain) :=
  Wrappers.setTokenWrapper interface.

End SetTokenContract.

(** ** Trade quotes: the fixtures and the arithmetic the specification gives *)

Module TradeQuote.

(** *** Decimal strings *)

(** [BigNumber.from(s)] on a string of decimal digits. *)
Definition parse_uint (s : string) : option Z :=
  Z.of_uint <$> NilZero.uint_of_string s.

Definition uint_to_string (n : Z) : string :=
  NilZero.string_of_uint (N.to_uint (Z.to_N n)).

(** The part before the first ['.'] and, if there is one, the part after. *)
Fixpoint split_point (s : string) : string * option string :=
  match s with
  | EmptyString => (EmptyString, None)
  | String ch rest =>
      if Ascii.eqb ch "." then (EmptyString, Some rest)
      else let '(i, f) := split_point rest in (String ch i, f)
  end.

(** A fixed-point number: [mantissa / 10 ^ scale]. *)
Record Decimal := { mantissa : Z; scale : nat }.

Definition pow10 (n : nat) : Z := 10 ^ Z.of_nat n.

Definition to_Q (d : Decimal) : Q :=
  (inject_Z (mantissa d) / inject_Z (pow10 (scale d)))%Q.

(** A decimal literal such as ["3194.41"] or ["-1.10"], read exactly. *)
Definition parse_decimal (s : string) : option Decimal :=
  let '(negative, body) :=
    match s with
    | String "-" rest => (true, rest)
    | _ => (false, s)
    end in
  let '(i, f) := split_point body in
  let f := default EmptyString f in
  ip ← parse_uint i;
  fp ← (if String.eqb f EmptyString then Some 0%Z else parse_uint f);
  let m := (ip * pow10 (String.length f) + fp)%Z in
  Some {| mantissa := if negative then (- m)%Z else m; scale := String.length f |}.

Fixpoint zeros (n : nat) : string :=
  match n with
  | O => EmptyString
  | S n' => String "0" (zeros n')
  end.

(** Drop the zeros that end a run of digits; nothing is left when only zeros
    (or nothing) follow. *)
Fixpoint strip_trailing_zeros (s : string) : string :=
  match s with
  | EmptyString => EmptyString
  | String ch rest =>
      match strip_trailing_zeros rest with
      | EmptyString => if Ascii.eqb ch "0" then EmptyString else String ch EmptyString
      | rest' => String ch rest'
      end
  end.

(** [digits] digits after the point, all of them. *)
Definition fixed_digits (frac : Z) (digits : nat) : string :=
  let s := uint_to_string frac in
  zeros (digits - String.length s) +:+ s.

(** *** The fixtures of [test/fixtures/tradeQuote.ts] *)

Record ZeroExQuote := {
  price : string;
  guaranteedPrice : string;
  data : string;
  buyAmount : string;
  sellAmount : string;
  gas : string
}.

Definition zeroExReponseEth : ZeroExQuote :=
  {| price := "0.082625382321048146";
     guaranteedPrice := "0.082625382321048146";
     data := "0x415565b00000000000000000000000009f8f72aa9304c8b593d555f12ef6589cc3a579a2";
     buyAmount := "41312691160507030";
     sellAmount := "499999999999793729";
     gas := "346000" |}.

Definition zeroExReponsePoly : ZeroExQuote :=
  {| price := "0.00002973";
     guaranteedPrice := "0.00002973";
     data := "0x415565b00000000000000000000000002791bca1f2de4661ed88a30c99a7a9449aa84174";
     gas := "240000";
     buyAmount := "2973";
     sellAmount := "1000000" |}.

(** A token-list entry; [logoURI] and [volumeUSD], which no amount depends
    on, are left out. *)
Record Token := {
  chainId : Z;
  address : Address;
  name : string;
  symbol : string;
  decimals : nat
}.

Definition coinGeckoTokenResponseEth : list Token :=
  [ {| chainId := 1; address := "0xc02aaa39b223fe8d0a0e5c4f27ead9083c756cc2";
       name := "Wrapped Eth"; symbol := "WETH"; decimals := 18 |};
    {| chainId := 1; address := "0x0bc529c00c6401aef6d220be8c6ea1667f6ad93e";
       name := "Maker"; symbol := "MKR"; decimals := 18 |};
    {| chainId := 1; address := "0x9f8f72aa9304c8b593d555f12ef6589cc3a579a2";
       name := "Yearn"; symbol := "YFI"; decimals := 18 |} ].

Definition fetchTokenListResponsePoly : list Token :=
  [ {| chainId := 137; address := "0x2791bca1f2de4661ed88a30c99a7a9449aa84174";
       symbol := "USDC"; name := "USD Coin"; decimals := 6 |};
    {| chainId := 137; address := "0x1bfd67037b42cf73acf2047067bd4f2c47d9bfd6";
       symbol := "WBTC"; name := "Wrapped BTC"; decimals := 8 |};
    {| chainId := 137; address := "0x7d1afa7b718fb893db30a3abc0cfc608aacfebb0";
       symbol := "MATIC"; name := "Matic Token"; decimals := 18 |} ].

(** Token address to its [usd] price, the number written as in the file. *)
Definition coinGeckoPricesResponseEth : list (Address * string) :=
  [ ("0x0bc529c00c6401aef6d220be8c6ea1667f6ad93e", "39087");
    ("0x9f8f72aa9304c8b593d555f12ef6589cc3a579a2", "3194.41");
    ("0xc02aaa39b223fe8d0a0e5c4f27ead9083c756cc2", "2493.12") ].

Definition coinGeckoPricesResponsePoly : list (Address * string) :=
  [ ("0x1bfd67037b42cf73acf2047067bd4f2c47d9bfd6", "33595");
    ("0x2791bca1f2de4661ed88a30c99a7a9449aa84174", "1.01");
    ("0x0d500b1d8e8ef31e21c99d1db9a6444d3adf1270", "1.49") ].

Record Display := {
  inputAmountRaw : string;
  inputAmount : string;
  quoteAmount : string;
  fromTokenDisplayAmount : string;
  toTokenDisplayAmount : string;
  fromTokenPriceUsd : string;
  toTokenPriceUsd : string;
  gasCostsUsd : string;
  gasCostsChainCurrency : string;
  feePercentage : string;
  slippage : string
}.

Record t := {
  from : Address;
  fromTokenAddress : Address;
  toTokenAddress : Address;
  exchangeAdapterName : string;
  calldata : string;
  gas_ : string;
  gasPrice : string;
  slippagePercentage : string;
  fromTokenAmount : string;
  toTokenAmount : string;
  display : Display
}.

Definition setTradeQuoteEth : t :=
  {| from := "0x1494ca1f11d487c2bbe4543e90080aeba4ba3c2b";
     fromTokenAddress := "0x9f8f72aa9304c8b593d555f12ef6589cc3a579a2";
     toTokenAddress := "0x0bc529c00c6401aef6d220be8c6ea1667f6ad93e";
     exchangeAdapterName := "ZeroExApiAdapterV3";
     calldata := "0x415565b00000000000000000000000009f8f72aa9304c8b593d555f12ef6589cc3a579a2";
     gas_ := "315000";
     gasPrice := "61";
     slippagePercentage := "2.00%";
     fromTokenAmount := "1126868991563";
     toTokenAmount := "90314741816";
     display :=
       {| inputAmountRaw := ".5";
          inputAmount := "500000000000000000";
          quoteAmount := "499999999999793729";
          fromTokenDisplayAmount := "0.4999999999997937";
          toTokenDisplayAmount := "0.04131269116050703";
          fromTokenPriceUsd := "$1,597.20";
          toTokenPriceUsd := "$1,614.79";
          gasCostsUsd := "$47.91";
          gasCostsChainCurrency := "0.0192150 ETH";
          feePercentage := "1.00%";
          slippage := "-1.10%" |} |}.

Definition setTradeQuotePoly : t :=
  {| from := "0xd7dc13984d4fe87f389e50067fb3eedb3f704ea0";
     fromTokenAddress := "0x2791bca1f2de4661ed88a30c99a7a9449aa84174";
     toTokenAddress := "0x1bfd67037b42cf73acf2047067bd4f2c47d9bfd6";
     exchangeAdapterName := "ZeroExApiAdapterV3";
     calldata := "0x415565b00000000000000000000000002791bca1f2de4661ed88a30c99a7a9449aa84174";
     gas_ := "315000";
     gasPrice := "5";
     slippagePercentage := "2.00%";
     fromTokenAmount := "1000000";
     toTokenAmount := "2913";
     display :=
       {| inputAmountRaw := "1";
          inputAmount := "1000000";
          quoteAmount := "1000000";
          fromTokenDisplayAmount := "1";
          toTokenDisplayAmount := "0.00002973";
          fromTokenPriceUsd := "$1.01";
          toTokenPriceUsd := "$1.00";
          gasCostsUsd := "$0.002347";
          gasCostsChainCurrency := "0.0015750 MATIC";
          feePercentage := "0.00%";
          slippage := "1.11%" |} |}.

(** Look-ups into the fixture tables; addresses compare as the lower-case
    strings the price table is keyed by. *)
Definition priceOf (prices : list (Address * string)) (a : Address) : option Decimal :=
  p ← List.find (fun p => String.eqb (fst p) a) prices;
  parse_decimal (snd p).

Definition decimalsOf (tokens : list Token) (a : Address) : option nat :=
  decimals <$> List.find (fun t => String.eqb (address t) a) tokens.

(** *** The arithmetic, on exact decimals *)

(** Modelled from the spec: a display amount is "raw amount / 10^decimals"
    "to full precision": every digit of the quotient, no trailing zeros. *)
Definition tokenDisplayAmount (raw : Z) (decimals : nat) : string :=
  let whole := uint_to_string (raw / pow10 decimals) in
  match strip_trailing_zeros (fixed_digits (raw mod pow10 decimals) decimals) with
  | EmptyString => whole
  | digits => whole +:+ "." +:+ digits
  end.

(** Modelled from the spec: "USD value = price × raw amount / 10^decimals". *)
Definition usdValue (price : Decimal) (raw : Z) (decimals : nat) : Q :=
  (to_Q price * inject_Z raw / inject_Z (pow10 decimals))%Q.

(** Modelled from the spec: "slippage = (quoted amount − guaranteed amount)
    / quoted amount". *)
Definition slippageOf (quoted guaranteed : Q) : Q :=
  ((quoted - guaranteed) / quoted)%Q.

(** Nearest integer, halves away from zero. *)
Definition round (x : Q) : Z :=
  if Qle_bool 0 x then Qfloor (x + (1 # 2))%Q else (- Qfloor (- x + (1 # 2))%Q)%Z.

(** Modelled from the spec: "percentage formatting" of a ratio, with the two
    decimals the fixtures show. *)
Definition formatAsPercentage (ratio : Q) : string :=
  let hundredths := round (ratio * 100 * 100)%Q in
  let magnitude := Z.abs hundredths in
  (if (hundredths <? 0)%Z then "-" else EmptyString)
  +:+ uint_to_string (magnitude / 100) +:+ "."
  +:+ fixed_digits (magnitude mod 100) 2 +:+ "%".

(** Modelled from the spec: the two amounts the slippage compares, each a
    "USD value": that of the quote amount sold and that of the amount the
    swap gives for it. *)
Definition quotedUsd (prices : list (Address * string)) (tokens : list Token)
    (q : t) (zx : ZeroExQuote) : option Q :=
  p ← priceOf prices (fromTokenAddress q);
  d ← decimalsOf tokens (fromTokenAddress q);
  raw ← parse_uint (sellAmount zx);
  Some (usdValue p raw d).

Definition guaranteedUsd (prices : list (Address * string)) (tokens : list Token)
    (q : t) (zx : ZeroExQuote) : option Q :=
  p ← priceOf prices (toTokenAddress q);
  d ← decimalsOf tokens (toTokenAddress q);
  raw ← parse_uint (buyAmount zx);
  Some (usdValue p raw d).

Definition slippageDisplay (prices : list (Address * string)) (tokens : list Token)
    (q : t) (zx : ZeroExQuote) : option string :=
  quoted ← quotedUsd prices tokens q zx;
  guaranteed ← guaranteedUsd prices tokens q zx;
  Some (formatAsPercentage (slippageOf quoted guaranteed)).

End TradeQuote.

(** ** The scenario of the wrapper tests *)

Module Scenario.

(** ["0x"] followed by sixty-four hexadecimal digits. *)
Definition is_hex_bytes32 (s : string) : bool :=
  match s with
  | String "0" (String "x" digits) =>
      ContractWrapper.all_hex digits && (String.length digits =? 64)%nat
  | _ => false
  end.

(** The accounts of [SetTokenWrapper.spec.ts], in the order of
    [provider.listAccounts()]. *)
Definition owner : Address := "0x5409ED021D9299bf6814279A6A1411A7e866A631".
Definition managerAccount : Address := "0x6Ecbe1DB9EF729CBe972C83Fb886247691Fb6beb".
Definition mockIssuanceModule : Address := "0xE36Ea790bc9d7AB70C55260C66D52b1eca985f84".
Definition mockLockedModule : Address := "0xE834EC434DABA538cd1b9Fe1582052B880BD7e63".
Definition testAccount : Address := "0x78dc5D2D739606d31509C31d654056A45185ECb6".
Definition randomAccount : Address := "0xA8dDa8d7F5310E4A9E24F8eBA77E091Ac264f872".

Definition controllerAddress : Address := "0x0DEa6d942a2D8f594844F973366859616Dd5ea50".
Definition setTokenAddress : Address := "0x0bc529c00C6401aEF6D220BE8C6Ea1667F6Ad93e".
Definition firstComponent : Address := "0x9f8F72aA9304c8B593d555F12eF6589cC3A579A2".
Definition secondComponent : Address := "0x2791Bca1f2de4661ED88A30C99A7a9449Aa84174".
Definition streamingFeeModule : Address := "0xE99447aBbD5A7730b26D2D16fCcB2086319e4bC3".

(** The SetToken the tests deploy: two components, two modules, both
    initialized by the [beforeEach]. *)
Definition deployed : SetTokenContract.SetToken :=
  {| SetTokenContract.controllerAddress := controllerAddress;
     SetTokenContract.managerAddress := managerAccount;
     SetTokenContract.states :=
       <[mockLockedModule := INITIALIZED]> (<[mockIssuanceModule := INITIALIZED]> ∅);
     SetTokenContract.moduleList := [mockIssuanceModule; mockLockedModule];
     SetTokenContract.positionList :=
       [ {| component := firstComponent; module := "0x0000000000000000000000000000000000000000";
            unit := 1000000000000000000; positionState := DEFAULT; data := "0x" |};
         {| component := secondComponent; module := "0x0000000000000000000000000000000000000000";
            unit := 2000000000000000000; positionState := DEFAULT; data := "0x" |} ];
     SetTokenContract.isLocked := false |}.

(** The chain after [controller.addModule(testAccount)]. *)
Definition chain : SetTokenContract.Chain :=
  {| SetTokenContract.sets := {[ setTokenAddress := deployed ]};
     SetTokenContract.enabledModules :=
       {[ mockIssuanceModule; mockLockedModule; testAccount ]};
     SetTokenContract.defaultAccount := owner |}.

(** A provider whose signers report the caller they were asked for, or the
    node's first account; it has no account under a malformed address. *)
Definition provider : ContractWrapper.Provider :=
  {| ContractWrapper.getSigner := fun callerAddress =>
       {| ContractWrapper.getAddress :=
            match callerAddress with
            | None => Some owner
            | Some a => if ContractWrapper.is_hex_address a then Some a else None
            end |} |}.

(** What lies behind the wrappers: nothing connected yet, and the chain. *)
Abbreviation World := (Wrappers.World SetTokenContract.Chain).

Definition fresh (ch : SetTokenContract.Chain) : World :=
  {| Wrappers.contracts := ContractWrapper.new provider 0;
     Wrappers.chain := ch |}.

Definition creator : SetTokenAPI.SetTokenCreatorWrapper World :=
  {| SetTokenAPI.create := fun _ _ _ _ _ _ _ _ ch => (Ok "create", ch) |}.

Definition utils : SetTokenAPI.ProtocolUtils World :=
  {| SetTokenAPI.getCreatedSetTokenAddress := fun _ ch => (Ok setTokenAddress, ch) |}.

Definition detailsOf (moduleAddresses : list Address) (s : SetTokenContract.SetToken)
    : SetDetails :=
  {| name := "TestSetToken";
     symbol := "SET";
     manager := SetTokenContract.managerAddress s;
     modules := SetTokenContract.moduleList s;
     moduleStatuses := SetTokenContract.stateOf s <$> moduleAddresses;
     positions := SetTokenContract.positionList s;
     totalSupply := 0 |}.

(** A viewer over the chain; [feeInfo] is what its streaming-fee fetch does. *)
Definition viewer
    (feeInfo : list Address -> SetTokenAPI.Remote World (list StreamingFeeInfo))
    : SetTokenAPI.ProtocolViewerWrapper World :=
  {| SetTokenAPI.getSetDetails := fun a ms _ ch =>
       (SetTokenContract.view (detailsOf ms) a (Wrappers.chain ch), ch);
     SetTokenAPI.batchFetchStreamingFeeInfo := fun sets _ => feeInfo sets;
     SetTokenAPI.batchFetchDetails := fun sets ms _ ch =>
       (Ok (omap (fun a => detailsOf ms <$>
                             SetTokenContract.sets (Wrappers.chain ch) !! a) sets), ch);
     SetTokenAPI.batchFetchManagers := fun tokens ch =>
       (Ok ((fun _ => managerAccount) <$> tokens), ch);
     SetTokenAPI.batchFetchBalancesOf := fun tokens _ _ ch =>
       (Ok ((fun _ => 0%Z) <$> tokens), ch);
     SetTokenAPI.batchFetchAllowances := fun tokens _ _ _ ch =>
       (Ok ((fun _ => 0%Z) <$> tokens), ch) |}.

Definition feeInfoResolves (sets : list Address)
    : SetTokenAPI.Remote World (list StreamingFeeInfo) :=
  fun ch =>
    (Ok ((fun _ => {| feeRecipient := managerAccount; streamingFeePercentage := 9500000000000000;
                      unaccruedFees := 0 |}) <$> sets), ch).

Definition feeInfoRejects (sets : list Address)
    : SetTokenAPI.Remote World (list StreamingFeeInfo) :=
  fun ch => (Err "call revert exception", ch).

(** An API instance over the chain, streaming fee module as given. *)
Definition api (feeInfo : list Address -> SetTokenAPI.Remote World (list StreamingFeeInfo))
    (streamingFeeModuleAddress : Address) (ch : SetTokenContract.Chain)
    : SetTokenAPI.St World :=
  SetTokenAPI.instance ContractWrapper.is_hex_address is_hex_bytes32
    SetTokenContract.wrapper creator (viewer feeInfo) utils streamingFeeModuleAddress
    (fresh ch) [].

(** The chain of the [#initializeModule] tests: the manager has added
    [testAccount] through the contract. *)
Definition pending : SetTokenContract.Chain :=
  snd (SetTokenContract.addModule setTokenAddress testAccount (Some managerAccount) []
         chain).

Definition protocolViewerAddress : Address := "0x1dC4c1cEFEF38a777b15aA20260a54E584b16C48".
Definition setTokenCreatorAddress : Address := "0x1D7022f5B17d2F8B695918FB48fa1089C9f85401".

(** What is deployed on the chain, for the wrappers as the specification
    describes them. *)
Definition deployment : Wrappers.Deployed SetTokenContract.Chain :=
  {| Wrappers.setToken := SetTokenContract.interface;
     Wrappers.setTokenCreator :=
       {| Wrappers.create := fun _ _ _ _ _ _ _ _ _ ch => (Ok "create", ch) |};
     Wrappers.protocolViewer :=
       {| Wrappers.getSetDetails := fun _ a ms => SetTokenContract.view (detailsOf ms) a;
          Wrappers.batchFetchStreamingFeeInfo := fun _ _ _ _ => Ok [];
          Wrappers.batchFetchDetails := fun _ sets ms ch =>
            Ok (omap (fun a => detailsOf ms <$> SetTokenContract.sets ch !! a) sets);
          Wrappers.batchFetchManagers := fun _ tokens ch =>
            Ok (omap (fun a => SetTokenContract.managerAddress <$>
                                 SetTokenContract.sets ch !! a) tokens);
          Wrappers.batchFetchBalancesOf := fun _ tokens _ _ =>
            Ok ((fun _ => 0%Z) <$> tokens);
          Wrappers.batchFetchAllowances := fun _ tokens _ _ _ =>
            Ok ((fun _ => 0%Z) <$> tokens) |};
     Wrappers.createdSetToken := fun _ _ => Ok setTokenAddress |}.

(** An API instance over these wrappers, nothing connected yet. *)
Definition layered (ch : SetTokenContract.Chain) : SetTokenAPI.St World :=
  {| SetTokenAPI.this :=
       Wrappers.api deployment protocolViewerAddress streamingFeeModule
         setTokenCreatorAddress
         (Assertions.new ContractWrapper.is_hex_address is_hex_bytes32) None;
     SetTokenAPI.world := fresh ch;
     SetTokenAPI.trace := [] |}.

(** The arrays a viewer was given, call after call. *)
Definition Received := list (list Address).

(** A viewer that keeps the arrays its balance and allowance fetches are
    given, and answers zero for each token. *)
Definition recordingViewer : SetTokenAPI.ProtocolViewerWrapper Received :=
  {| SetTokenAPI.getSetDetails := fun _ _ _ w => (Err "call exception", w);
     SetTokenAPI.batchFetchStreamingFeeInfo := fun _ _ w => (Ok [], w);
     SetTokenAPI.batchFetchDetails := fun _ _ _ w => (Ok [], w);
     SetTokenAPI.batchFetchManagers := fun _ w => (Ok [], w);
     SetTokenAPI.batchFetchBalancesOf := fun tokens owners _ w =>
       (Ok ((fun _ => 0%Z) <$> tokens), (w ++ [tokens; owners])%list);
     SetTokenAPI.batchFetchAllowances := fun tokens owners spenders _ w =>
       (Ok ((fun _ => 0%Z) <$> tokens), (w ++ [tokens; owners; spenders])%list) |}.

(** An API instance whose viewer is the recording one; its other wrappers
    answer nothing. *)
Definition recorder : SetTokenAPI.St Received :=
  SetTokenAPI.instance ContractWrapper.is_hex_address is_hex_bytes32
    {| SetTokenAPI.controller := fun _ w => (Err "call exception", w);
       SetTokenAPI.manager_ := fun _ w => (Err "call exception", w);
       SetTokenAPI.getPositions := fun _ _ w => (Err "call exception", w);
       SetTokenAPI.getModules := fun _ _ w => (Err "call exception", w);
       SetTokenAPI.moduleStates := fun _ _ _ w => (Err "call exception", w);
       SetTokenAPI.addModule := fun _ _ _ _ w => (Err "call exception", w);
       SetTokenAPI.setManager := fun _ _ _ _ w => (Err "call exception", w);
       SetTokenAPI.initializeModule := fun _ _ _ w => (Err "call exception", w);
       SetTokenAPI.isInitializedModule := fun _ _ _ w => (Err "call exception", w);
       SetTokenAPI.isPendingModule := fun _ _ _ w => (Err "call exception", w) |}
    {| SetTokenAPI.create := fun _ _ _ _ _ _ _ _ w => (Err "call exception", w) |}
    recordingViewer
    {| SetTokenAPI.getCreatedSetTokenAddress := fun _ w => (Err "call exception", w) |}
    streamingFeeModule [] [].

End Scenario.

(** * Properties *)

(** ** The contract-handle cache *)

Section ContractWrapperFacts.

Import ContractWrapper.

Lemma no_underscore_append (a c : string) :
  no_underscore (a +:+ String "_" c) = false.
Proof.
  induction a as [|ch a IH]; simpl; [done |].
  rewrite IH. by destruct (Ascii.eqb ch "_").
Qed.

(** With an underscore-free last component, the last separator is found
    again: the two components before and after it are determined. *)
Lemma separator_inj (a1 a2 c1 c2 : string) :
  no_underscore c1 = true → no_underscore c2 = true →
  a1 +:+ String "_" c1 = a2 +:+ String "_" c2 → a1 = a2 ∧ c1 = c2.
Proof.
  intros H1 H2. revert a2.
  induction a1 as [|x a1 IH]; intros [|y a2]; simpl; intros Heq.
  - by simplify_eq.
  - simplify_eq. by rewrite no_underscore_append in H1.
  - simplify_eq. by rewrite no_underscore_append in H2.
  - simplify_eq. destruct (IH a2) as [-> ->]; done.
Qed.

Lemma cacheKey_inj k1 a1 c1 k2 a2 c2 :
  no_underscore c1 = true → no_underscore c2 = true →
  cacheKey k1 a1 c1 = cacheKey k2 a2 c2 → k1 = k2 ∧ a1 = a2 ∧ c1 = c2.
Proof.
  intros H1 H2 Heq. unfold cacheKey in Heq.
  destruct k1, k2; simpl in Heq; simplify_eq;
    (split; [done|]); by apply separator_inj.
Qed.

(** No key the wrapper builds names a member of [Object.prototype], so
    [in] only ever sees stored entries. *)
Lemma cacheKey_not_inherited k a c : cacheKey k a c ∉ object_prototype.
Proof.
  unfold object_prototype, cacheKey. intros H.
  repeat (apply elem_of_cons in H as [H|H]; [by destruct k|]).
  by apply elem_of_nil in H.
Qed.

Lemma js_in_cacheKey k a c (o : gmap string Contract) :
  js_in (cacheKey k a c) o = bool_decide (is_Some (o !! cacheKey k a c)).
Proof.
  unfold js_in.
  rewrite (bool_decide_eq_false_2 (cacheKey k a c ∈ object_prototype));
    [apply orb_false_r | apply cacheKey_not_inherited].
Qed.

Lemma load_hit k a s c h st :
  getAddress s = Some c → cache st !! cacheKey k a c = Some h →
  load k a s st = (Ok (Handle h), st).
Proof.
  intros Hs Hc. unfold load. rewrite Hs. simpl. rewrite js_in_cacheKey.
  rewrite bool_decide_eq_true_2; [|by eexists].
  unfold js_get. by rewrite Hc.
Qed.

Lemma load_miss k a s c st :
  getAddress s = Some c → cache st !! cacheKey k a c = None →
  load k a s st =
    (Ok (Handle {| ref := allocated st; factory := k; address := a; signer := s |}),
     {| provider := provider st;
        cache := <[cacheKey k a c :=
                    {| ref := allocated st; factory := k; address := a; signer := s |}]>
                 (cache st);
        allocated := S (allocated st) |}).
Proof.
  intros Hs Hc. unfold load. rewrite Hs. simpl. rewrite js_in_cacheKey.
  rewrite bool_decide_eq_false_2; [done|].
  rewrite Hc. by intros [? ?].
Qed.

Lemma cache_ok_new p heap : cache_ok (new p heap).
Proof. split; simpl; intros *; by rewrite lookup_empty. Qed.

Lemma load_provider k a s st : provider (snd (load k a s st)) = provider st.
Proof.
  unfold load. destruct (getAddress s); [|done]. simpl.
  by destruct (js_in _ _).
Qed.

Lemma load_cache_ok k a s st : cache_ok st → cache_ok (snd (load k a s st)).
Proof.
  intros [Hlt Hinj]. unfold load.
  destruct (getAddress s) as [c|]; [|done]. simpl.
  destruct (js_in _ _); [done|]. split; simpl.
  - intros key h. rewrite lookup_insert.
    case_decide; intros Hk; simplify_eq/=; [lia|]. apply Hlt in Hk. lia.
  - intros key1 key2 h1 h2. rewrite !lookup_insert.
    repeat case_decide; intros Hk1 Hk2 Hr; simplify_eq/=; try done.
    + apply Hlt in Hk2. lia.
    + apply Hlt in Hk1. lia.
    + eauto.
Qed.

(** A stored entry is never removed and never replaced. *)
Lemma load_keeps k a s st key h :
  cache st !! key = Some h → cache (snd (load k a s st)) !! key = Some h.
Proof.
  intros Hk. unfold load.
  destruct (getAddress s) as [c|]; [|done]. simpl.
  destruct (decide (cacheKey k a c = key)) as [<-|Hne].
  - rewrite js_in_cacheKey, bool_decide_eq_true_2; [done | by eexists].
  - destruct (js_in _ _); [done|]. simpl. by rewrite lookup_insert_ne.
Qed.

(** A call changes nothing but the cache, and the cache by at most one new
    entry, a handle. *)
Lemma load_frame k a s st :
  provider (snd (load k a s st)) = provider st
  ∧ (snd (load k a s st) = st
     ∨ ∃ key h, cache st !! key = None
                ∧ cache (snd (load k a s st)) = <[key := h]> (cache st)).
Proof.
  split; [apply load_provider|]. unfold load.
  destruct (getAddress s) as [c|]; [|by left]. simpl.
  rewrite js_in_cacheKey.
  destruct (cache st !! cacheKey k a c) as [h|] eqn:Hc.
  - left. by rewrite bool_decide_eq_true_2 by (by eexists).
  - right. rewrite bool_decide_eq_false_2 by (by intros [? ?]).
    eexists _, _. by split.
Qed.

Lemma call_load m st :
  call m st = load (kind_of m) (address_of m) (signer_of (provider st) m) st.
Proof. by destruct m. Qed.

Lemma calls_provider ms st : provider (calls ms st) = provider st.
Proof.
  revert st. induction ms as [|m ms IH]; intros st; simpl; [done|].
  unfold calls in *. simpl. rewrite IH, call_load. apply load_provider.
Qed.

Lemma calls_cache_ok ms st : cache_ok st → cache_ok (calls ms st).
Proof.
  revert st. induction ms as [|m ms IH]; intros st H; simpl; [done|].
  apply IH. rewrite call_load. by apply load_cache_ok.
Qed.

Lemma calls_keeps ms st key h :
  cache st !! key = Some h → cache (calls ms st) !! key = Some h.
Proof.
  revert st. induction ms as [|m ms IH]; intros st H; simpl; [done|].
  apply IH. rewrite call_load. by apply load_keeps.
Qed.

(** A call for a tuple resolves to a handle, which is then the entry stored
    under the tuple's key; on a hit the instance is left as it was. *)
Lemma call_tuple m st k a c :
  tuple_of (provider st) m = Some (k, a, c) →
  ∃ h, fst (call m st) = Ok (Handle h)
       ∧ cache (snd (call m st)) !! cacheKey k a c = Some h
       ∧ (∀ h', cache st !! cacheKey k a c = Some h' → h = h' ∧ snd (call m st) = st).
Proof.
  unfold tuple_of. rewrite call_load.
  destruct (getAddress (signer_of (provider st) m)) as [c'|] eqn:Hs; [|done].
  intros ?; simplify_eq.
  destruct (cache st !! cacheKey (kind_of m) (address_of m) c) as [h|] eqn:Hc.
  - exists h. rewrite (load_hit _ _ _ _ _ _ Hs Hc). simpl.
    split; [done|]. split; [done|]. intros h' ?. by simplify_eq.
  - eexists. rewrite (load_miss _ _ _ _ _ Hs Hc). simpl.
    split; [done|]. split; [by rewrite lookup_insert_eq | done].
Qed.

Lemma all_hex_no_underscore (s : string) : all_hex s = true → no_underscore s = true.
Proof.
  induction s as [|ch s IH]; simpl; [done|].
  intros [Hd Hs]%andb_true_iff. rewrite (IH Hs), andb_true_r.
  destruct (Ascii.eqb_spec ch "_") as [->|]; [done | done].
Qed.

(** A 0x-prefixed hexadecimal address holds no underscore. *)
Lemma is_hex_address_no_underscore (s : string) :
  is_hex_address s = true → no_underscore s = true.
Proof.
  destruct s as [|c0 [|c1 digits]]; simpl; try done.
  - by destruct c0 as [[] [] [] [] [] [] [] []].
  - destruct (Ascii.eqb_spec c0 "0") as [->|];
      [|by destruct c0 as [[] [] [] [] [] [] [] []]].
    destruct (Ascii.eqb_spec c1 "x") as [->|];
      [|by destruct c1 as [[] [] [] [] [] [] [] []]].
    simpl. intros [H _]%andb_true_iff. by apply all_hex_no_underscore.
Qed.

(** C1. On one [ContractWrapper] instance, after any calls [before]: a call
    [m1] for a (kind, address, caller) tuple and a later call [m2], with any
    calls [between], both resolve to handles; for the same tuple the second
    call gives the identical handle and leaves the instance untouched; no
    entry stored at any point is ever removed or replaced; and for different
    tuples (caller addresses as a signer reports them, without underscore)
    the two handles are different objects. *)
Theorem C1_cache_returns_identical_handle
    (p : Provider) (heap : nat) (before between : list Method) (m1 m2 : Method)
    (t1 t2 : ContractKind * Address * Address) :
  tuple_of p m1 = Some t1 →
  tuple_of p m2 = Some t2 →
  let st0 := calls before (new p heap) in
  let st1 := calls between (snd (call m1 st0)) in
  ∃ h1 h2 : Contract,
    fst (call m1 st0) = Ok (Handle h1)
    ∧ fst (call m2 st1) = Ok (Handle h2)
    ∧ (t1 = t2 → h1 = h2 ∧ snd (call m2 st1) = st1)
    ∧ (t1 ≠ t2 → no_underscore t1.2 = true → no_underscore t2.2 = true →
       ref h1 ≠ ref h2)
    ∧ (∀ key h, cache st0 !! key = Some h ∨ cache (snd (call m1 st0)) !! key = Some h
                ∨ cache st1 !! key = Some h →
                cache (snd (call m2 st1)) !! key = Some h).
Proof.
  intros Ht1 Ht2 st0 st1.
  destruct t1 as [[k1 a1] c1], t2 as [[k2 a2] c2].
  assert (Hp0 : provider st0 = p) by (unfold st0; by rewrite calls_provider).
  assert (Hp1 : provider st1 = p).
  { unfold st1. by rewrite calls_provider, call_load, load_provider. }
  assert (Hok : cache_ok (snd (call m2 st1))).
  { rewrite (call_load m2). apply load_cache_ok, calls_cache_ok.
    rewrite (call_load m1). apply load_cache_ok, calls_cache_ok, cache_ok_new. }
  rewrite <- Hp0 in Ht1. rewrite <- Hp1 in Ht2.
  destruct (call_tuple _ _ _ _ _ Ht1) as (h1 & Hr1 & Hs1 & _).
  destruct (call_tuple _ _ _ _ _ Ht2) as (h2 & Hr2 & Hs2 & Hhit).
  assert (Hs1' : cache st1 !! cacheKey k1 a1 c1 = Some h1)
    by (by apply calls_keeps).
  assert (Hkeep : ∀ key h, cache st1 !! key = Some h →
                           cache (snd (call m2 st1)) !! key = Some h).
  { intros key h Hk. rewrite call_load. by apply load_keeps. }
  exists h1, h2. repeat split; try done.
  - simplify_eq. by destruct (Hhit h1 Hs1') as [-> _].
  - simplify_eq. by destruct (Hhit h1 Hs1') as [_ ->].
  - simpl. intros Hne Hc1 Hc2 Href. apply Hne.
    destruct Hok as [_ Hinj].
    pose proof (Hinj _ _ _ _ (Hkeep _ _ Hs1') Hs2 Href) as Hkey.
    apply cacheKey_inj in Hkey as (-> & -> & ->); done.
  - intros key h [Hk | [Hk | Hk]]; apply Hkeep; [| |done].
    + apply calls_keeps. rewrite call_load. by apply load_keeps.
    + by apply calls_keeps.
Qed.

Lemma C1_cache_returns_identical_handle_witness :
  let token := "0x0bc529c00C6401aEF6D220BE8C6Ea1667F6Ad93e" in
  let first := LoadSetTokenAsync token None in
  let again := LoadSetTokenAsync token (Some Scenario.owner) in
  let other := LoadERC20Async token None in
  let st0 := calls [] (new Scenario.provider 0) in
  let st1 := calls [other] (snd (call first st0)) in
  (∃ h1 h2 : Contract,
     fst (call first st0) = Ok (Handle h1) ∧ fst (call again st1) = Ok (Handle h2)
     ∧ h1 = h2)
  ∧ (∃ h1 h2 : Contract,
       fst (call first st0) = Ok (Handle h1) ∧ fst (call other st1) = Ok (Handle h2)
       ∧ ref h1 ≠ ref h2).
Proof.
  intros token first again other st0 st1. split.
  - destruct (C1_cache_returns_identical_handle Scenario.provider 0 [] [other]
                first again
                (SetToken, token, Scenario.owner) (SetToken, token, Scenario.owner)
                eq_refl eq_refl)
      as (h1 & h2 & H1 & H2 & Hsame & _).
    exists h1, h2. split; [exact H1|]. split; [exact H2|].
    exact (proj1 (Hsame eq_refl)).
  - destruct (C1_cache_returns_identical_handle Scenario.provider 0 [] [other]
                first other
                (SetToken, token, Scenario.owner) (ERC20, token, Scenario.owner)
                eq_refl eq_refl)
      as (h1 & h2 & H1 & H2 & _ & Hother & _).
    exists h1, h2. split; [exact H1|]. split; [exact H2|].
    apply Hother; [discriminate | reflexivity | reflexivity].
Defined.

End ContractWrapperFacts.

(** ** The SetToken API *)

Section SetTokenAPIFacts.

Import SetTokenAPI.

Context {W : Type}.
Implicit Types (st : St W) (op : Op).

Lemma mapM_checks {A B} (g : A → result Error ()) (u : B) (l : list A) st :
  mapM (λ x, check (g x);; mret u) l st
  = (match first_error g l with
     | Some e => Err e
     | None => Ok (replicate (length l) u)
     end, st).
Proof.
  induction l as [|x l IH]; simpl; [done|].
  unfold mbind, M_bind, check at 1. destruct (g x) as [[]|e]; simpl; [|done].
  unfold mbind, M_bind in IH. rewrite IH.
  by destruct (first_error g l).
Qed.

Lemma forEach_checks {A B} (g : A → result Error ()) (o s : B) (l : list A)
    (acc : list B * list B) st :
  forEach (λ x (arrays : list B * list B),
             check (g x);; mret (push arrays.1 o, push arrays.2 s)) l acc st
  = (match first_error g l with
     | Some e => Err e
     | None => Ok ((acc.1 ++ replicate (length l) o)%list,
                   (acc.2 ++ replicate (length l) s)%list)
     end, st).
Proof.
  revert acc. induction l as [|x l IH]; intros [os ss]; simpl.
  - by rewrite !app_nil_r.
  - unfold mbind, M_bind, check at 1. destruct (g x) as [[]|e]; simpl; [|done].
    rewrite IH. unfold push. simpl.
    destruct (first_error g l); [done|].
    by rewrite <- !app_assoc.
Qed.

Lemma first_error_default (wellFormed : Address → bool) (n : string) (l : list Address) :
  first_error (λ value, if wellFormed value then Ok () else Err (ValidationError n)) l
  = if forallb wellFormed l then None else Some (ValidationError n).
Proof.
  induction l as [|x l IH]; simpl; [done|].
  destruct (wellFormed x); simpl; [apply IH | done].
Qed.

Lemma forallb_malformed (wellFormed : Address → bool) (l : list Address) (a : Address) :
  a ∈ l → wellFormed a = false → forallb wellFormed l = false.
Proof.
  intros Hin Ha. apply not_true_is_false. intros Hall.
  rewrite forallb_forall in Hall. apply list_elem_of_In, Hall in Hin. congruence.
Qed.

(** How the pieces of a method body run. *)
Lemma bind_eq {A B} (m : M W A) (f : A → M W B) st :
  (m ≫= f) st = match m st with
                | (Ok a, st') => f a st'
                | (Err e, st') => (Err e, st')
                end.
Proof. reflexivity. Qed.

Lemma fmap_eq {A B} (g : A → B) (m : M W A) st :
  (g <$> m) st = match m st with
                 | (Ok a, st') => (Ok (g a), st')
                 | (Err e, st') => (Err e, st')
                 end.
Proof. reflexivity. Qed.

Lemma bind_self {B} (f : t W → M W B) st : (self ≫= f) st = f (this st) st.
Proof. reflexivity. Qed.

Lemma bind_check {B} (r : result Error ()) (f : () → M W B) st :
  (check r ≫= f) st = match r with
                      | Ok x => f x st
                      | Err e => (Err e, st)
                      end.
Proof. unfold mbind, M_bind, check. by destruct r as [[]|]. Qed.

Variables (wellFormed : Address → bool) (wellFormedBytes32 : string → bool).

(** One validation step: look at the assertion, and stop if it throws. *)
Ltac validation_step :=
  rewrite bind_check;
  match goal with
  | |- context [match (if ?c then _ else _) with Ok _ => _ | Err _ => _ end] =>
      destruct c eqn:?
  end; simpl; try (eexists; reflexivity).

(** C3. [createAsync] with component addresses and units of different
    lengths throws a validation error; nothing is handed to a wrapper and
    the state is as before.  It is the only operation taking such a pair. *)
Theorem C3_mismatched_lengths_rejected
    (stw : SetTokenWrapper W) (creator : SetTokenCreatorWrapper W)
    (viewer : ProtocolViewerWrapper W) (utils : ProtocolUtils W)
    (sfm : Address) (w : W) (log : list Event)
    (componentAddresses : list Address) (units : list Z)
    (moduleAddresses : list Address) (managerAddress : Address)
    (name symbol : string) (callerAddress : option Address)
    (txOpts : TransactionOverrides) :
  length componentAddresses ≠ length units →
  let st := instance wellFormed wellFormedBytes32 stw creator viewer utils sfm w log in
  let call := run (CreateAsync componentAddresses units moduleAddresses
                     managerAddress name symbol callerAddress txOpts) in
  (∃ message, call st = (Err (ValidationError message), st))
  ∧ events call st = [].
Proof.
  intros Hlen st call.
  assert (H : ∃ message, call st = (Err (ValidationError message), st)).
  { unfold call, run, createAsync. rewrite fmap_eq, bind_self. simpl.
    validation_step. validation_step.
    by apply Nat.eqb_eq in Heqb0. }
  split; [done|]. destruct H as [message H].
  unfold events. rewrite H. simpl. by rewrite drop_all.
Qed.

(** A check that passed on a malformed address cannot be. *)
Ltac absurd_validation :=
  first
    [ congruence
    | match goal with
      | H : forallb wellFormed ?l = true, Hin : ?a ∈ ?l |- _ =>
          rewrite (forallb_malformed wellFormed l a Hin) in H;
          [discriminate | assumption]
      end ].

Lemma rejected_no_events {A} (m : M W A) st e :
  m st = (Err e, st) → events m st = [].
Proof. intros H. unfold events. rewrite H. simpl. by rewrite drop_all. Qed.

(** Where the assertions are: in every operation other than
    [batchFetchManagersAsync], a malformed address in an address argument
    that the API itself checks (all but the optional [callerAddress], which
    goes to the wrapper as it is) makes the operation throw a validation
    error before anything is handed to a wrapper. *)
Lemma checked_address_rejected
    (stw : SetTokenWrapper W) (creator : SetTokenCreatorWrapper W)
    (viewer : ProtocolViewerWrapper W) (utils : ProtocolUtils W)
    (sfm : Address) (w : W) (log : list Event)
    (op : Op) (name : string) (a : Address) :
  (name, a) ∈ address_arguments op →
  name ≠ "callerAddress" →
  (∀ l, op ≠ BatchFetchManagersAsync l) →
  wellFormed a = false →
  let st := instance wellFormed wellFormedBytes32 stw creator viewer utils sfm w log in
  (∃ message, run op st = (Err (ValidationError message), st))
  ∧ events (run op) st = [].
Proof.
  intros Hin Hname Hop Ha st.
  assert (H : ∃ message, run op st = (Err (ValidationError message), st)).
  { destruct op; simpl in Hin;
      repeat (rewrite ?elem_of_app, ?elem_of_cons, ?list_elem_of_fmap in Hin);
      try (by apply elem_of_nil in Hin);
      try (by edestruct Hop);
      destruct_or!; destruct_and?;
      repeat match goal with
             | H : ∃ _, _ |- _ => destruct H as [? [? ?]]
             | H : _ ∈ [] |- _ => by apply elem_of_nil in H
             end;
      simplify_eq; try done;
      unfold run, createAsync, fetchSetDetailsAsync, batchFetchSetDetailsAsync,
        batchFetchBalancesOfAsync, batchFetchAllowancesAsync,
        getControllerAddressAsync, getManagerAddressAsync, getPositionsAsync,
        getModulesAsync, getModuleStateAsync, addModuleAsync, setManagerAsync,
        initializeModuleAsync, isModuleEnabledAsync, isModulePendingAsync;
      rewrite fmap_eq, bind_self; simpl;
      repeat (validation_step; try absurd_validation);
      try absurd_validation.
    all: rewrite bind_eq; first [rewrite mapM_checks | rewrite forEach_checks];
      rewrite first_error_default;
      rewrite (forallb_malformed wellFormed _ _ ltac:(eassumption) Ha);
      eexists; reflexivity. }
  split; [done|]. destruct H as [message H]. by eapply rejected_no_events.
Qed.

(** *** No method writes to the instance *)

Create HintDb keeps discriminated.

Lemma keeps_ret {A} (a : A) : keeps_this (mret (M := M W) a).
Proof. by intros st. Qed.

Lemma keeps_self : keeps_this (W := W) self.
Proof. by intros st. Qed.

Lemma keeps_check r : keeps_this (W := W) (check r).
Proof. intros st. unfold check. by destruct r. Qed.

Lemma keeps_throw {A} e : keeps_this (W := W) (throw (A := A) e).
Proof. by intros st. Qed.

Lemma keeps_delegate {A} req (f : Remote W A) : keeps_this (delegate req f).
Proof.
  intros st. unfold delegate. by destruct (f (world st)) as [[a|e] w].
Qed.

Lemma keeps_bind {A B} (m : M W A) (f : A → M W B) :
  keeps_this m → (∀ a, keeps_this (f a)) → keeps_this (m ≫= f).
Proof.
  intros Hm Hf st. rewrite bind_eq. specialize (Hm st).
  destruct (m st) as [[a|e] st']; simpl in *; [|done].
  by rewrite Hf.
Qed.

Lemma keeps_fmap {A B} (g : A → B) (m : M W A) :
  keeps_this m → keeps_this (g <$> m).
Proof.
  intros Hm st. rewrite fmap_eq. specialize (Hm st).
  by destruct (m st) as [[a|e] st'].
Qed.

Lemma keeps_mapM {A B} (f : A → M W B) (l : list A) :
  (∀ x, keeps_this (f x)) → keeps_this (mapM f l).
Proof.
  intros Hf. induction l as [|x l IH]; simpl.
  - apply keeps_ret.
  - apply keeps_bind; [done|]. intros y.
    apply keeps_bind; [done|]. intros ys. apply keeps_ret.
Qed.

Lemma keeps_forEach {A S} (f : A → S → M W S) (l : list A) (s : S) :
  (∀ x s, keeps_this (f x s)) → keeps_this (forEach f l s).
Proof.
  intros Hf. revert s. induction l as [|x l IH]; intros s; simpl.
  - apply keeps_ret.
  - apply keeps_bind; [done|]. intros s'. apply IH.
Qed.

#[local] Hint Resolve keeps_ret keeps_self keeps_check keeps_throw keeps_delegate
  keeps_bind keeps_fmap keeps_mapM keeps_forEach : keeps.
#[local] Hint Extern 2 (keeps_this (if ?b then _ else _)) => destruct b : keeps.
#[local] Hint Extern 2 (keeps_this (match ?x with [] => _ | _ :: _ => _ end)) =>
  destruct x : keeps.
#[local] Hint Extern 2 (keeps_this (let '(_, _) := ?x in _)) => destruct x : keeps.

Lemma run_keeps_this op : keeps_this (run (W := W) op).
Proof.
  destruct op; unfold run, createAsync, getSetAddressFromCreateHash,
    fetchSetDetailsAsync, batchFetchSetDetailsAsync, batchFetchManagersAsync,
    batchFetchBalancesOfAsync, batchFetchAllowancesAsync,
    getControllerAddressAsync, getManagerAddressAsync, getPositionsAsync,
    getModulesAsync, getModuleStateAsync, addModuleAsync, setManagerAsync,
    initializeModuleAsync, isModuleEnabledAsync, isModulePendingAsync;
    auto 30 with keeps.
Qed.

(** *** A rejected request ends the operation *)

Create HintDb failfast discriminated.

Lemma fails_fast_silent {A} (m : M W A) :
  (∀ st, snd (m st) = st) → fails_fast m.
Proof.
  intros Hm st. exists []. rewrite Hm, app_nil_r. split; [done|].
  left. constructor.
Qed.

Lemma fails_fast_ret {A} (a : A) : fails_fast (mret (M := M W) a).
Proof. by apply fails_fast_silent. Qed.

Lemma fails_fast_self : fails_fast (W := W) self.
Proof. by apply fails_fast_silent. Qed.

Lemma fails_fast_check r : fails_fast (W := W) (check r).
Proof. apply fails_fast_silent. intros st. unfold check. by destruct r. Qed.

Lemma fails_fast_throw {A} e : fails_fast (W := W) (throw (A := A) e).
Proof. by apply fails_fast_silent. Qed.

Lemma fails_fast_delegate {A} req (f : Remote W A) : fails_fast (delegate req f).
Proof.
  intros st. unfold delegate.
  destruct (f (world st)) as [[a|payload] w]; simpl; eexists [_];
    (split; [reflexivity|]).
  - left. by repeat constructor.
  - right. exists [], {| request := req; rejection := Some payload |}, payload.
    repeat split; constructor.
Qed.

Lemma fails_fast_bind {A B} (m : M W A) (f : A → M W B) :
  fails_fast m → (∀ a, fails_fast (f a)) → fails_fast (m ≫= f).
Proof.
  intros Hm Hf st. rewrite bind_eq.
  destruct (Hm st) as (evs1 & Ht1 & Hcase).
  destruct (m st) as [[a|e] st1]; simpl in *.
  - destruct Hcase as [Hres1 | (? & ? & ? & _ & _ & _ & ?)]; [|done].
    destruct (Hf a st1) as (evs2 & Ht2 & Hcase2).
    exists (evs1 ++ evs2)%list. rewrite Ht2, Ht1, app_assoc. split; [done|].
    destruct Hcase2 as [Hres2 | (pre & ev & payload & -> & Hpre & Hev & Hr)].
    + left. by apply Forall_app.
    + right. exists (evs1 ++ pre)%list, ev, payload.
      rewrite app_assoc. repeat split; try done. by apply Forall_app.
  - exists evs1. split; [done|].
    destruct Hcase as [? | (pre & ev & payload & ? & ? & ? & ?)]; [by left|].
    right. exists pre, ev, payload. by simplify_eq.
Qed.

Lemma fails_fast_fmap {A B} (g : A → B) (m : M W A) :
  fails_fast m → fails_fast (g <$> m).
Proof.
  intros Hm st. rewrite fmap_eq.
  destruct (Hm st) as (evs & Ht & Hcase). exists evs.
  destruct (m st) as [[a|e] st1]; simpl in *; (split; [done|]).
  - destruct Hcase as [? | (? & ? & ? & _ & _ & _ & ?)]; [by left | done].
  - destruct Hcase as [? | (pre & ev & payload & ? & ? & ? & ?)]; [by left|].
    right. exists pre, ev, payload. by simplify_eq.
Qed.

Lemma fails_fast_mapM {A B} (f : A → M W B) (l : list A) :
  (∀ x, fails_fast (f x)) → fails_fast (mapM f l).
Proof.
  intros Hf. induction l as [|x l IH]; simpl.
  - apply fails_fast_ret.
  - apply fails_fast_bind; [done|]. intros y.
    apply fails_fast_bind; [done|]. intros ys. apply fails_fast_ret.
Qed.

Lemma fails_fast_forEach {A S} (f : A → S → M W S) (l : list A) (s : S) :
  (∀ x s, fails_fast (f x s)) → fails_fast (forEach f l s).
Proof.
  intros Hf. revert s. induction l as [|x l IH]; intros s; simpl.
  - apply fails_fast_ret.
  - apply fails_fast_bind; [done|]. intros s'. apply IH.
Qed.

#[local] Hint Resolve fails_fast_ret fails_fast_self fails_fast_check
  fails_fast_throw fails_fast_delegate fails_fast_bind fails_fast_fmap
  fails_fast_mapM fails_fast_forEach : failfast.
#[local] Hint Extern 2 (fails_fast (if ?b then _ else _)) => destruct b : failfast.
#[local] Hint Extern 2 (fails_fast (match ?x with [] => _ | _ :: _ => _ end)) =>
  destruct x : failfast.
#[local] Hint Extern 2 (fails_fast (let '(_, _) := ?x in _)) => destruct x : failfast.

Lemma run_fails_fast op : fails_fast (run (W := W) op).
Proof.
  destruct op; unfold run, createAsync, getSetAddressFromCreateHash,
    fetchSetDetailsAsync, batchFetchSetDetailsAsync, batchFetchManagersAsync,
    batchFetchBalancesOfAsync, batchFetchAllowancesAsync,
    getControllerAddressAsync, getManagerAddressAsync, getPositionsAsync,
    getModulesAsync, getModuleStateAsync, addModuleAsync, setManagerAsync,
    initializeModuleAsync, isModuleEnabledAsync, isModulePendingAsync;
    auto 30 with failfast.
Qed.

(** In a run that fails fast, a rejected request is the last one and its
    payload is the outcome. *)
Lemma fails_fast_rejection {A} (m : M W A) st pre ev post payload :
  fails_fast m →
  events m st = (pre ++ ev :: post)%list → rejection ev = Some payload →
  post = [] ∧ fst (m st) = Err (RemoteError payload).
Proof.
  intros Hm Hev Hrej. destruct (Hm st) as (evs & Ht & Hcase).
  unfold events in Hev. rewrite Ht, drop_app_length in Hev. subst evs.
  destruct Hcase as [Hres | (pre' & ev' & payload' & Heq & Hpre & Hev' & Hr)].
  - apply Forall_app in Hres as [_ Hres]. apply Forall_cons in Hres as [Hres _].
    congruence.
  - destruct post as [|x post _] using rev_ind.
    + apply app_inj_tail in Heq as [-> ->]. split; [done|]. congruence.
    + rewrite app_comm_cons, app_assoc in Heq.
      apply app_inj_tail in Heq as [<- _].
      apply Forall_app in Hpre as [_ Hpre].
      apply Forall_cons in Hpre as [Hpre _]. congruence.
Qed.

(** C6. In every operation of the API, a request that a wrapper rejects is
    the last request of the operation (nothing is retried, nothing further
    is asked) and the operation rejects with that very payload, so no result
    is returned.  In particular [fetchSetDetailsAsync] rejects with the
    payload of the streaming-fee fetch when that fetch fails after the set
    details were fetched. *)
Theorem C6_rejected_request_fails_operation (st : St W) :
  (∀ op pre ev post payload,
     events (run op) st = (pre ++ ev :: post)%list →
     rejection ev = Some payload →
     post = [] ∧ fst (run op st) = Err (RemoteError payload))
  ∧ (∀ setTokenAddress moduleAddresses callerAddress payload,
       events (fetchSetDetailsAsync setTokenAddress moduleAddresses callerAddress) st
       = [ {| request := ReqGetSetDetails setTokenAddress moduleAddresses callerAddress;
              rejection := None |};
           {| request := ReqBatchFetchStreamingFeeInfo [setTokenAddress] callerAddress;
              rejection := Some payload |} ] →
       fst (fetchSetDetailsAsync setTokenAddress moduleAddresses callerAddress st)
       = Err (RemoteError payload)).
Proof.
  split.
  - intros op pre ev post payload Hev Hrej.
    eapply fails_fast_rejection; [apply run_fails_fast | done | done].
  - intros a ms c payload Hev.
    pose proof (run_fails_fast (FetchSetDetailsAsync a ms c)) as Hff.
    assert (Hrun : events (run (FetchSetDetailsAsync a ms c)) st
                   = events (fetchSetDetailsAsync a ms c) st).
    { unfold events, run. rewrite fmap_eq.
      by destruct (fetchSetDetailsAsync a ms c st) as [[?|?] ?]. }
    rewrite <- Hrun in Hev.
    destruct (fails_fast_rejection _ st [_] _ [] payload Hff Hev eq_refl) as [_ Hr].
    unfold run in Hr. rewrite fmap_eq in Hr.
    by destruct (fetchSetDetailsAsync a ms c st) as [[?|?] ?]; simplify_eq/=.
Qed.

Lemma bind_delegate {A B} req (f : Remote W A) (k : A → M W B) st :
  (delegate req f ≫= k) st
  = match f (world st) with
    | (Ok a, w) =>
        k a {| this := this st; world := w;
               trace := push (trace st) {| request := req; rejection := None |} |}
    | (Err payload, w) =>
        (Err (RemoteError payload),
         {| this := this st; world := w;
            trace := push (trace st)
                       {| request := req; rejection := Some payload |} |})
    end.
Proof.
  rewrite bind_eq. unfold delegate. by destruct (f (world st)) as [[a|e] w].
Qed.

Lemma events_delegate {A} req (f : Remote W A) st :
  events (delegate req f) st
  = [ {| request := req;
         rejection := match fst (f (world st)) with
                      | Ok _ => None
                      | Err payload => Some payload
                      end |} ].
Proof.
  unfold events, delegate, push.
  destruct (f (world st)) as [[a|e] w]; simpl; by rewrite drop_app_length.
Qed.

Lemma events_silent {A} (m : M W A) st : snd (m st) = st → events m st = [].
Proof. intros H. unfold events. rewrite H. by rewrite drop_all. Qed.

(** [batchFetchBalancesOfAsync], step by step. *)
Lemma batchFetchBalancesOfAsync_eq tokenAddresses userAddress callerAddress st :
  batchFetchBalancesOfAsync tokenAddresses userAddress callerAddress st
  = match Assertions.isValidAddress (Assertions.schema (assert (this st)))
            "userAddress" userAddress with
    | Err e => (Err e, st)
    | Ok _ =>
        match first_error (Assertions.isValidAddress
                             (Assertions.schema (assert (this st))) "tokenAddress")
                tokenAddresses with
        | Some e => (Err e, st)
        | None =>
            delegate
              (ReqBatchFetchBalancesOf tokenAddresses
                 (replicate (length tokenAddresses) userAddress) callerAddress)
              (batchFetchBalancesOf (protocolViewerWrapper (this st)) tokenAddresses
                 (replicate (length tokenAddresses) userAddress) callerAddress) st
        end
    end.
Proof.
  unfold batchFetchBalancesOfAsync. rewrite bind_self, bind_check.
  destruct (Assertions.isValidAddress _ _ _) as [[]|e]; [|done].
  rewrite bind_eq, mapM_checks.
  by destruct (first_error _ _).
Qed.

(** [batchFetchAllowancesAsync], step by step. *)
Lemma batchFetchAllowancesAsync_eq tokenAddresses ownerAddress spenderAddress
    callerAddress st :
  batchFetchAllowancesAsync tokenAddresses ownerAddress spenderAddress callerAddress st
  = match Assertions.isValidAddress (Assertions.schema (assert (this st)))
            "ownerAddress" ownerAddress with
    | Err e => (Err e, st)
    | Ok _ =>
    match Assertions.isValidAddress (Assertions.schema (assert (this st)))
            "spenderAddress" spenderAddress with
    | Err e => (Err e, st)
    | Ok _ =>
        match first_error (Assertions.isValidAddress
                             (Assertions.schema (assert (this st))) "tokenAddress")
                tokenAddresses with
        | Some e => (Err e, st)
        | None =>
            delegate
              (ReqBatchFetchAllowances tokenAddresses
                 (replicate (length tokenAddresses) ownerAddress)
                 (replicate (length tokenAddresses) spenderAddress) callerAddress)
              (batchFetchAllowances (protocolViewerWrapper (this st)) tokenAddresses
                 (replicate (length tokenAddresses) ownerAddress)
                 (replicate (length tokenAddresses) spenderAddress) callerAddress) st
        end
    end
    end.
Proof.
  unfold batchFetchAllowancesAsync. rewrite bind_self, bind_check.
  destruct (Assertions.isValidAddress _ "ownerAddress" _) as [[]|e]; [|done].
  rewrite bind_check.
  destruct (Assertions.isValidAddress _ "spenderAddress" _) as [[]|e]; [|done].
  rewrite bind_eq, forEach_checks.
  by destruct (first_error _ _).
Qed.

(** The outcome of a wrapper call as the method that awaits it sees it. *)
Lemma delegate_eq {A} req (f : Remote W A) st :
  fst (delegate req f st)
  = match fst (f (world st)) with
    | Ok a => Ok a
    | Err payload => Err (RemoteError payload)
    end
  ∧ world (snd (delegate req f st)) = snd (f (world st)).
Proof. unfold delegate. by destruct (f (world st)) as [[a|e] w]. Qed.

(** C9. Whatever the token list, when the address assertions pass,
    [batchFetchBalancesOfAsync] calls the viewer's [batchFetchBalancesOf]
    with the token list and an owner array of the same length whose every
    element is the user address: the outcome of the method and what the call
    did behind the wrapper are those of that very call, and the request
    logged carries these arrays.  [batchFetchAllowancesAsync] calls
    [batchFetchAllowances] with owner and spender arrays of that length,
    every element the owner, respectively the spender.  No other request is
    made. *)
Theorem C9_batch_arrays_aligned
    (st : St W) (tokenAddresses : list Address)
    (userAddress ownerAddress spenderAddress : Address)
    (callerAddress : option Address) :
  let valid name a :=
    Assertions.isValidAddress (Assertions.schema (assert (this st))) name a in
  let viewer := protocolViewerWrapper (this st) in
  let outcome {A} (r : result string A) : result Error A :=
    match r with Ok a => Ok a | Err payload => Err (RemoteError payload) end in
  let balances := batchFetchBalancesOfAsync tokenAddresses userAddress callerAddress in
  let allowances :=
    batchFetchAllowancesAsync tokenAddresses ownerAddress spenderAddress
      callerAddress in
  ∃ users owners spenders : list Address,
    (length users = length tokenAddresses ∧ ∀ u, u ∈ users → u = userAddress)
    ∧ (length owners = length tokenAddresses ∧ ∀ o, o ∈ owners → o = ownerAddress)
    ∧ (length spenders = length tokenAddresses
       ∧ ∀ s, s ∈ spenders → s = spenderAddress)
    ∧ (valid "userAddress" userAddress = Ok () →
       first_error (valid "tokenAddress") tokenAddresses = None →
       let call := batchFetchBalancesOf viewer tokenAddresses users callerAddress
                     (world st) in
       fst (balances st) = outcome (fst call)
       ∧ world (snd (balances st)) = snd call
       ∧ request <$> events balances st
         = [ ReqBatchFetchBalancesOf tokenAddresses users callerAddress ])
    ∧ (valid "ownerAddress" ownerAddress = Ok () →
       valid "spenderAddress" spenderAddress = Ok () →
       first_error (valid "tokenAddress") tokenAddresses = None →
       let call := batchFetchAllowances viewer tokenAddresses owners spenders
                     callerAddress (world st) in
       fst (allowances st) = outcome (fst call)
       ∧ world (snd (allowances st)) = snd call
       ∧ request <$> events allowances st
         = [ ReqBatchFetchAllowances tokenAddresses owners spenders callerAddress ])
    ∧ (∀ ev, ev ∈ events balances st →
         request ev = ReqBatchFetchBalancesOf tokenAddresses users callerAddress)
    ∧ (∀ ev, ev ∈ events allowances st →
         request ev = ReqBatchFetchAllowances tokenAddresses owners spenders
                        callerAddress).
Proof.
  intros valid viewer outcome balances allowances.
  assert (Hrep : ∀ (x y : Address) n, y ∈ replicate n x → y = x).
  { intros x y n. by intros [-> _]%elem_of_replicate. }
  exists (replicate (length tokenAddresses) userAddress),
         (replicate (length tokenAddresses) ownerAddress),
         (replicate (length tokenAddresses) spenderAddress).
  rewrite !length_replicate.
  split; [split; [done | intros ?; apply Hrep]|].
  split; [split; [done | intros ?; apply Hrep]|].
  split; [split; [done | intros ?; apply Hrep]|].
  repeat split.
  - unfold balances. rewrite batchFetchBalancesOfAsync_eq.
    unfold valid in H. rewrite H.
    rewrite (H0 : first_error (Assertions.isValidAddress
                     (Assertions.schema (assert (this st))) "tokenAddress")
                    tokenAddresses = None).
    apply delegate_eq.
  - unfold balances. rewrite batchFetchBalancesOfAsync_eq.
    unfold valid in H. rewrite H.
    rewrite (H0 : first_error (Assertions.isValidAddress
                     (Assertions.schema (assert (this st))) "tokenAddress")
                    tokenAddresses = None).
    apply delegate_eq.
  - unfold events, balances. rewrite batchFetchBalancesOfAsync_eq.
    unfold valid in H. rewrite H.
    rewrite (H0 : first_error (Assertions.isValidAddress
                     (Assertions.schema (assert (this st))) "tokenAddress")
                    tokenAddresses = None).
    fold (events (delegate
      (ReqBatchFetchBalancesOf tokenAddresses
         (replicate (length tokenAddresses) userAddress) callerAddress)
      (batchFetchBalancesOf (protocolViewerWrapper (this st)) tokenAddresses
         (replicate (length tokenAddresses) userAddress) callerAddress)) st).
    by rewrite events_delegate.
  - unfold allowances. rewrite batchFetchAllowancesAsync_eq.
    unfold valid in H, H0. rewrite H, H0.
    rewrite (H1 : first_error (Assertions.isValidAddress
                     (Assertions.schema (assert (this st))) "tokenAddress")
                    tokenAddresses = None).
    apply delegate_eq.
  - unfold allowances. rewrite batchFetchAllowancesAsync_eq.
    unfold valid in H, H0. rewrite H, H0.
    rewrite (H1 : first_error (Assertions.isValidAddress
                     (Assertions.schema (assert (this st))) "tokenAddress")
                    tokenAddresses = None).
    apply delegate_eq.
  - unfold events, allowances. rewrite batchFetchAllowancesAsync_eq.
    unfold valid in H, H0. rewrite H, H0.
    rewrite (H1 : first_error (Assertions.isValidAddress
                     (Assertions.schema (assert (this st))) "tokenAddress")
                    tokenAddresses = None).
    fold (events (delegate
      (ReqBatchFetchAllowances tokenAddresses
         (replicate (length tokenAddresses) ownerAddress)
         (replicate (length tokenAddresses) spenderAddress) callerAddress)
      (batchFetchAllowances (protocolViewerWrapper (this st)) tokenAddresses
         (replicate (length tokenAddresses) ownerAddress)
         (replicate (length tokenAddresses) spenderAddress) callerAddress)) st).
    by rewrite events_delegate.
  - intros ev. unfold events, balances. rewrite batchFetchBalancesOfAsync_eq.
    destruct (Assertions.isValidAddress _ _ _) as [[]|e];
      [|simpl; rewrite drop_all; by intros ?%elem_of_nil].
    destruct (first_error _ _);
      [simpl; rewrite drop_all; by intros ?%elem_of_nil|].
    fold (events (delegate
      (ReqBatchFetchBalancesOf tokenAddresses
         (replicate (length tokenAddresses) userAddress) callerAddress)
      (batchFetchBalancesOf (protocolViewerWrapper (this st)) tokenAddresses
         (replicate (length tokenAddresses) userAddress) callerAddress)) st).
    rewrite events_delegate. by intros ->%list_elem_of_singleton.
  - intros ev. unfold events, allowances. rewrite batchFetchAllowancesAsync_eq.
    destruct (Assertions.isValidAddress _ "ownerAddress" _) as [[]|e];
      [|simpl; rewrite drop_all; by intros ?%elem_of_nil].
    destruct (Assertions.isValidAddress _ "spenderAddress" _) as [[]|e];
      [|simpl; rewrite drop_all; by intros ?%elem_of_nil].
    destruct (first_error _ _);
      [simpl; rewrite drop_all; by intros ?%elem_of_nil|].
    fold (events (delegate
      (ReqBatchFetchAllowances tokenAddresses
         (replicate (length tokenAddresses) ownerAddress)
         (replicate (length tokenAddresses) spenderAddress) callerAddress)
      (batchFetchAllowances (protocolViewerWrapper (this st)) tokenAddresses
         (replicate (length tokenAddresses) ownerAddress)
         (replicate (length tokenAddresses) spenderAddress) callerAddress)) st).
    rewrite events_delegate. by intros ->%list_elem_of_singleton.
Qed.

(** *** Set details with streaming fee information *)





End SetTokenAPIFacts.

(** ** What the wrappers hold *)

Section WrapperLayerFacts.

Import SetTokenAPI.

Context {R : Type}.
Implicit Types (w : Wrappers.World R) (st : St (Wrappers.World R)).

Lemma call_loader kind a callerAddress (cw : ContractWrapper.State) :
  ContractWrapper.call
    (Wrappers.loader kind a callerAddress (ContractWrapper.provider cw)) cw
  = ContractWrapper.load kind a
      (ContractWrapper.getSigner (ContractWrapper.provider cw) callerAddress) cw.
Proof. by destruct kind. Qed.

(** A wrapper method whose caller has a signer: the handle is loaded and
    the contract method is called from the signer's address. *)
Lemma connected_resolved {A} kind a callerAddress
    (method : Address → Wrappers.Transaction R A) w sender :
  ContractWrapper.getAddress
    (ContractWrapper.getSigner (ContractWrapper.provider (Wrappers.contracts w))
       callerAddress) = Some sender →
  Wrappers.connected kind a callerAddress method w
  = (fst (method sender (Wrappers.chain w)),
     {| Wrappers.contracts :=
          snd (ContractWrapper.load kind a
                 (ContractWrapper.getSigner
                    (ContractWrapper.provider (Wrappers.contracts w)) callerAddress)
                 (Wrappers.contracts w));
        Wrappers.chain := snd (method sender (Wrappers.chain w)) |}).
Proof.
  intros Hs. unfold Wrappers.connected. rewrite call_loader, Hs.
  unfold ContractWrapper.load. rewrite Hs. simpl.
  destruct (ContractWrapper.js_in _ _); simpl;
    by destruct (method sender (Wrappers.chain w)).
Qed.

(** A wrapper method whose caller has no signer: rejected, nothing sent,
    nothing connected. *)
Lemma connected_unknown {A} kind a callerAddress
    (method : Address → Wrappers.Transaction R A) w :
  ContractWrapper.getAddress
    (ContractWrapper.getSigner (ContractWrapper.provider (Wrappers.contracts w))
       callerAddress) = None →
  Wrappers.connected kind a callerAddress method w = (Err "unknown account", w).
Proof.
  intros Hs. unfold Wrappers.connected. rewrite call_loader, Hs.
  unfold ContractWrapper.load. rewrite Hs. by destruct w.
Qed.

Lemma step_refl reading w : Wrappers.step reading w w.
Proof. split; [by exists [] | done]. Qed.

Lemma step_trans reading w1 w2 w3 :
  Wrappers.step reading w1 w2 → Wrappers.step reading w2 w3 →
  Wrappers.step reading w1 w3.
Proof.
  intros [[l1 H1] Hc1] [[l2 H2] Hc2]. split.
  - exists (l1 ++ l2)%list. unfold ContractWrapper.calls in *.
    by rewrite foldl_app, <- H1.
  - intros Hr. by rewrite Hc2, Hc1.
Qed.

Lemma step_connected {A} kind a callerAddress
    (method : Address → Wrappers.Transaction R A) w :
  Wrappers.step false w (snd (Wrappers.connected kind a callerAddress method w)).
Proof.
  split; [|done].
  exists [Wrappers.loader kind a callerAddress
            (ContractWrapper.provider (Wrappers.contracts w))].
  unfold Wrappers.connected, ContractWrapper.calls. simpl.
  destruct (ContractWrapper.call _ _) as [[h|e] loaded]; simpl; [|done].
  destruct (ContractWrapper.getAddress _); [|done].
  by destruct (method _ _).
Qed.

Lemma step_viewing {A} reading kind a callerAddress (method : Wrappers.View R A) w :
  Wrappers.step reading w (snd (Wrappers.viewing kind a callerAddress method w)).
Proof.
  split; [apply (step_connected kind a callerAddress _ w)|]. intros _.
  unfold Wrappers.viewing, Wrappers.connected.
  destruct (ContractWrapper.call _ _) as [[h|e] loaded]; simpl; [|done].
  by destruct (ContractWrapper.getAddress _).
Qed.

(** *** Method bodies over the wrappers *)

Variable api0 : t (Wrappers.World R).
Variable reading : bool.

Lemma evolves_silent {A} (m : M (Wrappers.World R) A) :
  (∀ st, snd (m st) = st) → Wrappers.evolves api0 reading m.
Proof. intros Hm st Hst. rewrite Hm. split; [done | apply step_refl]. Qed.

Lemma evolves_ret {A} (a : A) :
  Wrappers.evolves api0 reading (mret (M := M (Wrappers.World R)) a).
Proof. by apply evolves_silent. Qed.

Lemma evolves_check r : Wrappers.evolves api0 reading (check r).
Proof. apply evolves_silent. intros st. unfold check. by destruct r. Qed.

Lemma evolves_throw {A} e : Wrappers.evolves api0 reading (throw (A := A) e).
Proof. by apply evolves_silent. Qed.

Lemma evolves_delegate {A} req (f : Remote (Wrappers.World R) A) :
  (∀ w, Wrappers.step reading w (snd (f w))) →
  Wrappers.evolves api0 reading (delegate req f).
Proof.
  intros Hf st Hst. specialize (Hf (world st)). unfold delegate.
  by destruct (f (world st)) as [[a|e] w'].
Qed.

Lemma evolves_bind {A B} (m : M (Wrappers.World R) A) (f : A → M (Wrappers.World R) B) :
  Wrappers.evolves api0 reading m → (∀ a, Wrappers.evolves api0 reading (f a)) →
  Wrappers.evolves api0 reading (m ≫= f).
Proof.
  intros Hm Hf st Hst. unfold mbind, M_bind. destruct (Hm st Hst) as [Ht Hs].
  destruct (m st) as [[a|e] st']; simpl in *; [|done].
  destruct (Hf a st' Ht) as [Ht' Hs']. split; [done|]. by eapply step_trans.
Qed.

(** Reading a field of [this] gives a field of [api0]. *)
Lemma evolves_self_bind {B} (f : t (Wrappers.World R) → M (Wrappers.World R) B) :
  Wrappers.evolves api0 reading (f api0) → Wrappers.evolves api0 reading (self ≫= f).
Proof.
  intros Hf st Hst. unfold mbind, M_bind, self. simpl. rewrite Hst. by apply Hf.
Qed.

Lemma evolves_fmap {A B} (g : A → B) (m : M (Wrappers.World R) A) :
  Wrappers.evolves api0 reading m → Wrappers.evolves api0 reading (g <$> m).
Proof.
  intros Hm st Hst. unfold fmap, M_fmap. destruct (Hm st Hst) as [Ht Hs].
  by destruct (m st) as [[a|e] st'].
Qed.

Lemma evolves_mapM {A B} (f : A → M (Wrappers.World R) B) (l : list A) :
  (∀ x, Wrappers.evolves api0 reading (f x)) →
  Wrappers.evolves api0 reading (mapM f l).
Proof.
  intros Hf. induction l as [|x l IH]; simpl.
  - apply evolves_ret.
  - apply evolves_bind; [done|]. intros y.
    apply evolves_bind; [done|]. intros ys. apply evolves_ret.
Qed.

Lemma evolves_forEach {A S} (f : A → S → M (Wrappers.World R) S) (l : list A) (s : S) :
  (∀ x s, Wrappers.evolves api0 reading (f x s)) →
  Wrappers.evolves api0 reading (forEach f l s).
Proof.
  intros Hf. revert s. induction l as [|x l IH]; intros s; simpl.
  - apply evolves_ret.
  - apply evolves_bind; [done|]. intros s'. apply IH.
Qed.

End WrapperLayerFacts.

Section WrappersHoldHandles.

Import SetTokenAPI.

Context {R : Type}.

Create HintDb layer discriminated.

#[local] Hint Resolve evolves_ret evolves_check evolves_throw evolves_bind
  evolves_fmap evolves_mapM evolves_forEach : layer.
#[local] Hint Resolve evolves_self_bind | 0 : layer.
#[local] Hint Extern 2 (Wrappers.evolves _ _ (if ?b then _ else _)) =>
  destruct b : layer.
#[local] Hint Extern 2 (Wrappers.evolves _ _ (match ?x with [] => _ | _ :: _ => _ end)) =>
  destruct x : layer.
#[local] Hint Extern 2 (Wrappers.evolves _ _ (let '(_, _) := ?x in _)) =>
  destruct x : layer.
#[local] Hint Extern 1 (Wrappers.evolves _ _ (delegate _ _)) =>
  apply evolves_delegate; intro;
  unfold Wrappers.api, new, Wrappers.setTokenWrapper, Wrappers.setTokenCreatorWrapper,
    Wrappers.protocolViewerWrapper, Wrappers.protocolUtils; simpl;
  first [ apply step_viewing | apply step_connected | apply step_refl ] : layer.

Variables (d : Wrappers.Deployed R)
          (protocolViewerAddress streamingFeeModuleAddress setTokenCreatorAddress : Address)
          (defaultAssertions : Assertions.t) (assertions : option Assertions.t).

Lemma run_evolves (op : Op) :
  Wrappers.evolves
    (Wrappers.api d protocolViewerAddress streamingFeeModuleAddress
       setTokenCreatorAddress defaultAssertions assertions)
    (is_read op) (run op).
Proof.
  destruct op; simpl is_read;
    unfold run, createAsync, getSetAddressFromCreateHash,
      fetchSetDetailsAsync, batchFetchSetDetailsAsync, batchFetchManagersAsync,
      batchFetchBalancesOfAsync, batchFetchAllowancesAsync,
      getControllerAddressAsync, getManagerAddressAsync, getPositionsAsync,
      getModulesAsync, getModuleStateAsync, addModuleAsync, setManagerAsync,
      initializeModuleAsync, isModuleEnabledAsync, isModulePendingAsync;
    auto 30 with layer.
Qed.

(** C8. Whatever the wrappers, no operation of the API writes to a field of
    the instance.  With the wrappers as the specification describes them, an
    operation of the API leaves nothing behind but connected handles: the
    instance's fields are after the call what the constructor made them; the
    state the wrappers hold, the [ContractWrapper], is after the call what
    [load*Async] calls made of the one before (same provider, every stored
    handle still there); and a read operation leaves the chain as it is.
    What [getPositionsAsync] and [getModuleStateAsync] resolve to is what
    the contract's own read gives on that chain.  Also, [popPosition] of the
    SetTokenWrapper under src leaves its one field, the provider, as it was,
    and a [ContractWrapper] call changes only the cache, by at most one new
    handle. *)
Theorem C8_wrappers_hold_no_entity_state
    {W' : Type} (w : Wrappers.World R) (log : list Event) (op : Op)
    (any : St W')
    (getPositions : Address → W' → result string (list Position) * W')
    (setAddress : Address) (sw : SetTokenWrapper.St W')
    (cw : ContractWrapper.State) (m : ContractWrapper.Method) :
  let st := {| this := Wrappers.api d protocolViewerAddress streamingFeeModuleAddress
                         setTokenCreatorAddress defaultAssertions assertions;
               world := w; trace := log |} in
  let after := snd (run op st) in
  this (snd (run op any)) = this any
  ∧ this after = this st
  ∧ (∃ loads, Wrappers.contracts (world after)
              = ContractWrapper.calls loads (Wrappers.contracts w))
  ∧ ContractWrapper.provider (Wrappers.contracts (world after))
    = ContractWrapper.provider (Wrappers.contracts w)
  ∧ (∀ key handle,
       ContractWrapper.cache (Wrappers.contracts w) !! key = Some handle →
       ContractWrapper.cache (Wrappers.contracts (world after)) !! key = Some handle)
  ∧ (is_read op = true → Wrappers.chain (world after) = Wrappers.chain w)
  ∧ (∀ a caller l,
       op = GetPositionsAsync a caller → fst (run op st) = Ok (OutPositions l) →
       Wrappers.getPositions (Wrappers.setToken d) a (Wrappers.chain w) = Ok l)
  ∧ (∀ a moduleAddress caller state,
       op = GetModuleStateAsync a moduleAddress caller →
       fst (run op st) = Ok (OutModuleState state) →
       Wrappers.moduleStates (Wrappers.setToken d) a moduleAddress (Wrappers.chain w)
       = Ok state)
  ∧ SetTokenWrapper.this (snd (SetTokenWrapper.popPosition getPositions setAddress sw))
    = SetTokenWrapper.this sw
  ∧ ContractWrapper.provider (snd (ContractWrapper.call m cw))
    = ContractWrapper.provider cw
  ∧ (snd (ContractWrapper.call m cw) = cw
     ∨ ∃ (key : string) (handle : ContractWrapper.Contract),
         ContractWrapper.cache cw !! key = None
         ∧ ContractWrapper.cache (snd (ContractWrapper.call m cw))
           = <[key := handle]> (ContractWrapper.cache cw)).
Proof.
  intros st after.
  destruct (run_evolves op st eq_refl) as (Hthis & [loads Hloads] & Hread).
  split; [apply run_keeps_this|].
  split; [done|]. split; [by exists loads|].
  split; [unfold after; rewrite Hloads; apply calls_provider|].
  split; [intros key handle Hk; unfold after; rewrite Hloads; by apply calls_keeps|].
  split; [done|].
  split; [|split].
  - intros a caller l -> Hr. revert Hr.
    unfold run, getPositionsAsync. rewrite fmap_eq, bind_self, bind_check.
    destruct (Assertions.isValidAddress _ _ _) as [[]|?]; [|done].
    unfold delegate, st. simpl. unfold Wrappers.viewing, Wrappers.connected.
    destruct (ContractWrapper.call _ _) as [[h|e] loaded]; simpl; [|done].
    destruct (ContractWrapper.getAddress _); simpl; [|done].
    destruct (Wrappers.getPositions _ _ _); simpl; [|done].
    by intros ?; simplify_eq.
  - intros a moduleAddress caller state -> Hr. revert Hr.
    unfold run, getModuleStateAsync. rewrite fmap_eq, bind_self, bind_check.
    destruct (Assertions.isValidAddress _ "setAddress" _) as [[]|?]; [|done].
    rewrite bind_check.
    destruct (Assertions.isValidAddress _ "moduleAddress" _) as [[]|?]; [|done].
    unfold delegate, st. simpl. unfold Wrappers.viewing, Wrappers.connected.
    destruct (ContractWrapper.call _ _) as [[h|e] loaded]; simpl; [|done].
    destruct (ContractWrapper.getAddress _); simpl; [|done].
    destruct (Wrappers.moduleStates _ _ _ _); simpl; [|done].
    by intros ?; simplify_eq.
  - split.
    + unfold SetTokenWrapper.popPosition, SetTokenWrapper.loadSetToken. simpl.
      by destruct (getPositions _ _).
    + rewrite call_load. apply load_frame.
Qed.

End WrappersHoldHandles.

(** ** The module life cycle through the API *)

Section ModuleLifecycle.
Import SetTokenAPI.

Variables (wellFormed : Address → bool) (wellFormedBytes32 : string → bool).
Variables (creator : SetTokenCreatorWrapper (Wrappers.World SetTokenContract.Chain))
          (viewer : ProtocolViewerWrapper (Wrappers.World SetTokenContract.Chain))
          (utils : ProtocolUtils (Wrappers.World SetTokenContract.Chain))
          (sfm : Address).

Implicit Types (w : Wrappers.World SetTokenContract.Chain).

(** An API instance whose SetToken wrapper reaches the SetTokens of the
    chain behind it. *)
Let api w (log : list Event) : St (Wrappers.World SetTokenContract.Chain) :=
  instance wellFormed wellFormedBytes32 SetTokenContract.wrapper creator viewer utils
    sfm w log.

(** What [getModuleStateAsync] reads. *)
Let observe (setAddress moduleAddress : Address) w : result Error ModuleState :=
  fst (getModuleStateAsync setAddress moduleAddress None (api w [])).

(** The address the signer of a caller reports. *)
Let account w (callerAddress : option Address) : option Address :=
  ContractWrapper.getAddress
    (ContractWrapper.getSigner (ContractWrapper.provider (Wrappers.contracts w))
       callerAddress).

Lemma observe_eq setAddress moduleAddress w reader :
  account w None = Some reader →
  observe setAddress moduleAddress w
  = if wellFormed setAddress then
      if wellFormed moduleAddress then
        match SetTokenContract.sets (Wrappers.chain w) !! setAddress with
        | Some s => Ok (SetTokenContract.stateOf s moduleAddress)
        | None => Err (RemoteError "call exception")
        end
      else Err (ValidationError "moduleAddress")
    else Err (ValidationError "setAddress").
Proof.
  intros Hreader.
  unfold observe, getModuleStateAsync, api. rewrite bind_self. simpl.
  rewrite bind_check. destruct (wellFormed setAddress); [|done].
  rewrite bind_check. destruct (wellFormed moduleAddress); [|done].
  unfold delegate. simpl. unfold Wrappers.viewing.
  rewrite (connected_resolved _ _ _ _ _ reader Hreader). simpl.
  unfold SetTokenContract.view.
  by destruct (SetTokenContract.sets (Wrappers.chain w) !! setAddress).
Qed.

Lemma observe_Ok setAddress moduleAddress w reader state :
  account w None = Some reader →
  observe setAddress moduleAddress w = Ok state →
  wellFormed setAddress = true ∧ wellFormed moduleAddress = true
  ∧ ∃ s, SetTokenContract.sets (Wrappers.chain w) !! setAddress = Some s
         ∧ SetTokenContract.stateOf s moduleAddress = state.
Proof.
  intros Hreader. rewrite (observe_eq _ _ _ reader Hreader).
  destruct (wellFormed setAddress); [|done].
  destruct (wellFormed moduleAddress); [|done].
  destruct (SetTokenContract.sets (Wrappers.chain w) !! setAddress) as [s|]; [|done].
  intros ?; simplify_eq. eauto.
Qed.

Lemma stateOf_setState s moduleAddress state newModules :
  SetTokenContract.stateOf
    (SetTokenContract.setState s moduleAddress state newModules) moduleAddress
  = state.
Proof. unfold SetTokenContract.stateOf. simpl. by rewrite lookup_insert_eq. Qed.

(** A transaction of the SetToken wrapper, seen from the API: the outcome
    is that of the contract method called from the caller's account, and the
    chain behind is the one that call leaves. *)
Lemma delegate_connected {A} req setAddress callerAddress
    (method : Address → Wrappers.Transaction SetTokenContract.Chain A)
    w log sender :
  account w callerAddress = Some sender →
  ∃ st',
    delegate req (Wrappers.connected ContractWrapper.SetToken setAddress
                    callerAddress method) (api w log)
    = (match fst (method sender (Wrappers.chain w)) with
       | Ok a => Ok a
       | Err payload => Err (RemoteError payload)
       end, st')
    ∧ this st' = this (api w log)
    ∧ Wrappers.chain (world st') = snd (method sender (Wrappers.chain w))
    ∧ ContractWrapper.provider (Wrappers.contracts (world st'))
      = ContractWrapper.provider (Wrappers.contracts w)
    ∧ trace st'
      = (log ++ [ {| request := req;
                     rejection := match fst (method sender (Wrappers.chain w)) with
                                  | Ok _ => None
                                  | Err payload => Some payload
                                  end |} ])%list.
Proof.
  intros Hsender. unfold delegate. simpl.
  rewrite (connected_resolved _ _ _ _ _ sender Hsender).
  destruct (method sender (Wrappers.chain w)) as [[a|payload] ch]; simpl;
    eexists; (split; [reflexivity|]); simpl;
    repeat split; apply load_provider.
Qed.

(** C5. Through the API and the wrapper, on a deployed SetToken.  When a
    module reads [NONE] and is enabled on the controller, [addModuleAsync]
    called by the manager resolves, and the module then reads [PENDING].
    When a module reads [PENDING] and the SetToken is not locked,
    [initializeModuleAsync] called by that module resolves, and the module
    then reads [INITIALIZED].  When the calling module does not read
    [PENDING], the contract's [initializeModule] reverts and
    [initializeModuleAsync] rejects with the payload of that revert, as the
    one request of the call; the chain is as before and the module reads
    what it read.  And whenever [addModuleAsync] resolves for a module that
    read [NONE], the module reads [PENDING]; whenever
    [initializeModuleAsync] called by a module resolves, the module read
    [PENDING] and reads [INITIALIZED]. *)
Theorem C5_module_lifecycle
    (setAddress moduleAddress reader : Address) w (log : list Event)
    (txOpts : TransactionOverrides) :
  account w None = Some reader →
  (∀ callerAddress s,
     SetTokenContract.sets (Wrappers.chain w) !! setAddress = Some s →
     account w callerAddress = Some (SetTokenContract.managerAddress s) →
     moduleAddress ∈ SetTokenContract.enabledModules (Wrappers.chain w) →
     observe setAddress moduleAddress w = Ok NONE →
     ∃ tx st1,
       addModuleAsync setAddress moduleAddress callerAddress txOpts (api w log)
       = (Ok tx, st1)
       ∧ observe setAddress moduleAddress (world st1) = Ok PENDING)
  ∧ (∀ callerAddress s,
       SetTokenContract.sets (Wrappers.chain w) !! setAddress = Some s →
       account w callerAddress = Some moduleAddress →
       SetTokenContract.isLocked s = false →
       observe setAddress moduleAddress w = Ok PENDING →
       ∃ tx st2,
         initializeModuleAsync setAddress callerAddress txOpts (api w log)
         = (Ok tx, st2)
         ∧ observe setAddress moduleAddress (world st2) = Ok INITIALIZED)
  ∧ (∀ callerAddress state,
       account w callerAddress = Some moduleAddress →
       observe setAddress moduleAddress w = Ok state →
       state ≠ PENDING →
       ∃ payload st3,
         fst (SetTokenContract.initializeModule setAddress (Some moduleAddress)
                txOpts (Wrappers.chain w)) = Err payload
         ∧ initializeModuleAsync setAddress callerAddress txOpts (api w log)
           = (Err (RemoteError payload), st3)
         ∧ trace st3
           = (log ++ [ {| request :=
                            ReqInitializeModule setAddress callerAddress txOpts;
                          rejection := Some payload |} ])%list
         ∧ Wrappers.chain (world st3) = Wrappers.chain w
         ∧ observe setAddress moduleAddress (world st3) = Ok state)
  ∧ (∀ callerAddress tx st1,
       observe setAddress moduleAddress w = Ok NONE →
       addModuleAsync setAddress moduleAddress callerAddress txOpts (api w log)
       = (Ok tx, st1) →
       observe setAddress moduleAddress (world st1) = Ok PENDING)
  ∧ (∀ callerAddress tx st2,
       account w callerAddress = Some moduleAddress →
       wellFormed moduleAddress = true →
       initializeModuleAsync setAddress callerAddress txOpts (api w log)
       = (Ok tx, st2) →
       observe setAddress moduleAddress w = Ok PENDING
       ∧ observe setAddress moduleAddress (world st2) = Ok INITIALIZED).
Proof.
  intros Hreader. split; [|split; [|split; [|split]]].
  - intros callerAddress s Hs Hcaller Henabled
      (Hset & Hmod & s' & Hs' & Hnone)%(observe_Ok _ _ _ reader _ Hreader).
    rewrite Hs in Hs'. injection Hs' as <-.
    unfold addModuleAsync. rewrite bind_self.
    change (assert (this (api w log)))
      with (Assertions.new wellFormed wellFormedBytes32).
    simpl Assertions.isValidAddress.
    rewrite bind_check, Hset. rewrite bind_check, Hmod.
    change (addModule (setTokenWrapper (this (api w log))) setAddress moduleAddress
              callerAddress txOpts)
      with (Wrappers.connected ContractWrapper.SetToken setAddress callerAddress
              (λ sender, SetTokenContract.addModule setAddress moduleAddress
                           (Some sender) txOpts)).
    destruct (delegate_connected
                (ReqAddModule setAddress moduleAddress callerAddress txOpts)
                setAddress callerAddress
                (λ sender, SetTokenContract.addModule setAddress moduleAddress
                             (Some sender) txOpts)
                w log _ Hcaller) as (st1 & Hrun & _ & Hchain & Hprov & _).
    rewrite Hrun. revert Hchain.
    unfold SetTokenContract.addModule, SetTokenContract.sender. simpl.
    rewrite Hs, String.eqb_refl, Hnone. simpl.
    rewrite bool_decide_eq_true_2 by done. simpl. intros Hchain.
    eexists _, st1. split; [done|].
    rewrite (observe_eq _ _ _ reader) by (unfold account; by rewrite Hprov).
    rewrite Hset, Hmod, Hchain. simpl.
    by rewrite lookup_insert_eq, stateOf_setState.
  - intros callerAddress s Hs Hcaller Hunlocked
      (Hset & Hmod & s' & Hs' & Hpending)%(observe_Ok _ _ _ reader _ Hreader).
    rewrite Hs in Hs'. injection Hs' as <-.
    unfold initializeModuleAsync. rewrite bind_self.
    change (assert (this (api w log)))
      with (Assertions.new wellFormed wellFormedBytes32).
    simpl Assertions.isValidAddress.
    rewrite bind_check, Hset.
    change (initializeModule (setTokenWrapper (this (api w log))) setAddress
              callerAddress txOpts)
      with (Wrappers.connected ContractWrapper.SetToken setAddress callerAddress
              (λ sender, SetTokenContract.initializeModule setAddress
                           (Some sender) txOpts)).
    destruct (delegate_connected
                (ReqInitializeModule setAddress callerAddress txOpts)
                setAddress callerAddress
                (λ sender, SetTokenContract.initializeModule setAddress
                             (Some sender) txOpts)
                w log _ Hcaller) as (st2 & Hrun & _ & Hchain & Hprov & _).
    rewrite Hrun. revert Hchain.
    unfold SetTokenContract.initializeModule, SetTokenContract.sender. simpl.
    rewrite Hs, Hunlocked, Hpending. simpl. intros Hchain.
    eexists _, st2. split; [done|].
    rewrite (observe_eq _ _ _ reader) by (unfold account; by rewrite Hprov).
    rewrite Hset, Hmod, Hchain. simpl.
    by rewrite lookup_insert_eq, stateOf_setState.
  - intros callerAddress state Hcaller Hobs Hne.
    pose proof Hobs as
      (Hset & Hmod & s & Hs & Hstate)%(observe_Ok _ _ _ reader _ Hreader).
    unfold initializeModuleAsync. rewrite bind_self.
    change (assert (this (api w log)))
      with (Assertions.new wellFormed wellFormedBytes32).
    simpl Assertions.isValidAddress.
    rewrite bind_check, Hset.
    change (initializeModule (setTokenWrapper (this (api w log))) setAddress
              callerAddress txOpts)
      with (Wrappers.connected ContractWrapper.SetToken setAddress callerAddress
              (λ sender, SetTokenContract.initializeModule setAddress
                           (Some sender) txOpts)).
    destruct (delegate_connected
                (ReqInitializeModule setAddress callerAddress txOpts)
                setAddress callerAddress
                (λ sender, SetTokenContract.initializeModule setAddress
                             (Some sender) txOpts)
                w log _ Hcaller) as (st3 & Hrun & _ & Hchain & Hprov & Htrace).
    rewrite Hrun. revert Hchain Htrace.
    unfold SetTokenContract.initializeModule, SetTokenContract.sender. simpl.
    rewrite Hs.
    assert (Hobs' : ∀ st3 : St (Wrappers.World SetTokenContract.Chain),
              ContractWrapper.provider (Wrappers.contracts (world st3))
              = ContractWrapper.provider (Wrappers.contracts w) →
              Wrappers.chain (world st3) = Wrappers.chain w →
              observe setAddress moduleAddress (world st3) = Ok state).
    { intros st Hp Hc.
      rewrite (observe_eq _ _ _ reader) by (unfold account; by rewrite Hp).
      by rewrite Hset, Hmod, Hc, Hs, Hstate. }
    destruct (SetTokenContract.isLocked s); simpl.
    + intros Hchain Htrace. eexists _, st3. by auto 10.
    + rewrite bool_decide_eq_false_2 by congruence. simpl.
      intros Hchain Htrace. eexists _, st3. by auto 10.
  - intros callerAddress tx st1
      (Hset & Hmod & s & Hs & Hnone)%(observe_Ok _ _ _ reader _ Hreader).
    unfold addModuleAsync. rewrite bind_self.
    change (assert (this (api w log)))
      with (Assertions.new wellFormed wellFormedBytes32).
    simpl Assertions.isValidAddress.
    rewrite bind_check, Hset. rewrite bind_check, Hmod.
    change (addModule (setTokenWrapper (this (api w log))) setAddress moduleAddress
              callerAddress txOpts)
      with (Wrappers.connected ContractWrapper.SetToken setAddress callerAddress
              (λ sender, SetTokenContract.addModule setAddress moduleAddress
                           (Some sender) txOpts)).
    destruct (account w callerAddress) as [sender|] eqn:Hcaller.
    + destruct (delegate_connected
                  (ReqAddModule setAddress moduleAddress callerAddress txOpts)
                  setAddress callerAddress
                  (λ sender, SetTokenContract.addModule setAddress moduleAddress
                               (Some sender) txOpts)
                  w log _ Hcaller) as (st' & Hrun & _ & Hchain & Hprov & _).
      rewrite Hrun. revert Hchain.
      unfold SetTokenContract.addModule. simpl. rewrite Hs.
      repeat (match goal with
              | |- context [if ?c then _ else _] => destruct c
              end; simpl; [by intros|]).
      intros Hchain [= <- <-].
      rewrite (observe_eq _ _ _ reader) by (unfold account; by rewrite Hprov).
      rewrite Hset, Hmod, Hchain. simpl.
      by rewrite lookup_insert_eq, stateOf_setState.
    + unfold delegate. simpl. by rewrite connected_unknown.
  - intros callerAddress tx st2 Hcaller Hmod.
    unfold initializeModuleAsync. rewrite bind_self.
    change (assert (this (api w log)))
      with (Assertions.new wellFormed wellFormedBytes32).
    simpl Assertions.isValidAddress.
    rewrite bind_check. destruct (wellFormed setAddress) eqn:Hset; [|done].
    change (initializeModule (setTokenWrapper (this (api w log))) setAddress
              callerAddress txOpts)
      with (Wrappers.connected ContractWrapper.SetToken setAddress callerAddress
              (λ sender, SetTokenContract.initializeModule setAddress
                           (Some sender) txOpts)).
    destruct (delegate_connected
                (ReqInitializeModule setAddress callerAddress txOpts)
                setAddress callerAddress
                (λ sender, SetTokenContract.initializeModule setAddress
                             (Some sender) txOpts)
                w log _ Hcaller) as (st' & Hrun & _ & Hchain & Hprov & _).
    rewrite Hrun. revert Hchain.
    unfold SetTokenContract.initializeModule, SetTokenContract.sender. simpl.
    destruct (SetTokenContract.sets (Wrappers.chain w) !! setAddress) as [s|] eqn:Hs;
      [|done].
    destruct (SetTokenContract.isLocked s); simpl; [by intros|].
    destruct (decide (SetTokenContract.stateOf s moduleAddress = PENDING))
      as [Hpending|Hother];
      [rewrite bool_decide_eq_true_2 by done
      |rewrite bool_decide_eq_false_2 by done; simpl; by intros].
    simpl. intros Hchain [= <- <-].
    split.
    + rewrite (observe_eq _ _ _ reader Hreader). by rewrite Hset, Hmod, Hs, Hpending.
    + rewrite (observe_eq _ _ _ reader) by (unfold account; by rewrite Hprov).
      rewrite Hset, Hmod, Hchain. simpl.
      by rewrite lookup_insert_eq, stateOf_setState.
Qed.
End ModuleLifecycle.

(** ** Trade-quote arithmetic on the fixtures *)

Section TradeQuoteFacts.

Import TradeQuote.

Local Open Scope Q_scope.

(** The amounts of the Ethereum quote, as the 0x response carries them. *)
Lemma eth_amounts :
  parse_uint (buyAmount zeroExReponseEth) = Some 41312691160507030%Z
  ∧ parse_uint (sellAmount zeroExReponseEth) = Some 499999999999793729%Z
  ∧ parse_uint (quoteAmount (display setTradeQuoteEth)) = Some 499999999999793729%Z
  ∧ decimalsOf coinGeckoTokenResponseEth (fromTokenAddress setTradeQuoteEth) = Some 18%nat
  ∧ decimalsOf coinGeckoTokenResponseEth (toTokenAddress setTradeQuoteEth) = Some 18%nat.
Proof. repeat split; vm_compute; reflexivity. Qed.

(** Read on the 0x [price] and [guaranteedPrice], which are equal in the
    fixture, the slippage formula gives zero: the amounts it is applied to
    are the USD values of what is sold and of what is bought. *)
Lemma slippage_of_equal_prices :
  (d ← parse_decimal (price zeroExReponseEth);
   g ← parse_decimal (guaranteedPrice zeroExReponseEth);
   Some (formatAsPercentage (slippageOf (to_Q d) (to_Q g)))) = Some "0.00%"%string.
Proof. vm_compute. reflexivity. Qed.

(** The same arithmetic gives the values of the Polygon fixture. *)
Lemma poly_fixture_arithmetic :
  tokenDisplayAmount 2973 8 = toTokenDisplayAmount (display setTradeQuotePoly)
  ∧ tokenDisplayAmount 1000000 6 = fromTokenDisplayAmount (display setTradeQuotePoly)
  ∧ slippageDisplay coinGeckoPricesResponsePoly fetchTokenListResponsePoly
      setTradeQuotePoly zeroExReponsePoly
    = Some (slippage (display setTradeQuotePoly)).
Proof. repeat split; vm_compute; reflexivity. Qed.

(** C4. On the Ethereum fixture (buy amount 41312691160507030, 18
    decimals): the display amount computed as buyAmount / 10^18 with every
    digit is the fixture's "0.04131269116050703", which denotes exactly that
    quotient; and the slippage (quoted − guaranteed) / quoted, taken on the
    USD value of the quote amount sold and the USD value of the amount
    bought, lies between −1.105% and −1.095% and is formatted as the
    fixture's "-1.10%". *)
Theorem C4_eth_fixture_arithmetic :
  tokenDisplayAmount 41312691160507030 18
  = toTokenDisplayAmount (display setTradeQuoteEth)
  ∧ (∃ d, parse_decimal (toTokenDisplayAmount (display setTradeQuoteEth)) = Some d
          ∧ to_Q d == 41312691160507030 # 1000000000000000000)
  ∧ (∃ quoted guaranteed,
       quotedUsd coinGeckoPricesResponseEth coinGeckoTokenResponseEth
         setTradeQuoteEth zeroExReponseEth = Some quoted
       ∧ guaranteedUsd coinGeckoPricesResponseEth coinGeckoTokenResponseEth
           setTradeQuoteEth zeroExReponseEth = Some guaranteed
       ∧ - (1105 # 100000) < slippageOf quoted guaranteed
       ∧ slippageOf quoted guaranteed < - (1095 # 100000)
       ∧ formatAsPercentage (slippageOf quoted guaranteed)
         = slippage (display setTradeQuoteEth))
  ∧ slippageDisplay coinGeckoPricesResponseEth coinGeckoTokenResponseEth
      setTradeQuoteEth zeroExReponseEth
    = Some (slippage (display setTradeQuoteEth)).
Proof.
  split; [vm_compute; reflexivity|].
  split; [eexists; split; [vm_compute; reflexivity | vm_compute; reflexivity]|].
  split; [|vm_compute; reflexivity].
  eexists _, _. split; [vm_compute; reflexivity|].
  split; [vm_compute; reflexivity|].
  repeat split; vm_compute; reflexivity.
Qed.

(** The display amount of the amount sold is not its full quotient: the
    quote amount of the Ethereum fixture, 499999999999793729 at 18 decimals,
    is 0.499999999999793729, and the fixture shows sixteen digits of it,
    29 / 10^18 less. *)
Lemma eth_sold_display_amount_is_shortened :
  parse_uint (quoteAmount (display setTradeQuoteEth)) = Some 499999999999793729%Z
  ∧ tokenDisplayAmount 499999999999793729 18 = "0.499999999999793729"%string
  ∧ fromTokenDisplayAmount (display setTradeQuoteEth) = "0.4999999999997937"%string
  ∧ (∃ shown, parse_decimal (fromTokenDisplayAmount (display setTradeQuoteEth))
              = Some shown
              ∧ (499999999999793729 # 1000000000000000000) - to_Q shown
                == 29 # 1000000000000000000).
Proof.
  repeat split; try (vm_compute; reflexivity).
  eexists. split; vm_compute; reflexivity.
Qed.

End TradeQuoteFacts.

(** ** The properties on the scenario of the wrapper tests *)

Section ScenarioFacts.

Import SetTokenAPI Scenario.

Lemma C3_mismatched_lengths_rejected_witness :
  let st := api feeInfoResolves streamingFeeModule chain in
  let call := run (CreateAsync [firstComponent; secondComponent] [1000000000000000000%Z]
                     [mockIssuanceModule] managerAccount "TestSetToken" "SET"
                     None []) in
  (∃ message, call st = (Err (ValidationError message), st)) ∧ events call st = [].
Proof.
  apply (C3_mismatched_lengths_rejected ContractWrapper.is_hex_address is_hex_bytes32
           SetTokenContract.wrapper creator (viewer feeInfoResolves) utils
           streamingFeeModule (fresh chain) []
           [firstComponent; secondComponent] [1000000000000000000%Z]).
  simpl. lia.
Defined.

(** C2, at the failing input.  [batchFetchManagersAsync] runs no assertion:
    whatever [tokenAddresses] holds, the list goes to the viewer's
    [batchFetchManagers] as it is; the outcome of the method and what the
    call did behind the wrapper are those of that call, it is the one request
    logged, and no validation error is raised.  With the malformed
    ["not-an-address"], the request is handed over, where
    [batchFetchSetDetailsAsync] on the same list throws before anything is. *)
Theorem C2_batchFetchManagersAsync_runs_no_assertion :
  (∀ (W : Type) (st : St W) (tokenAddresses : list Address),
     let call := batchFetchManagers (protocolViewerWrapper (this st)) tokenAddresses
                   (world st) in
     fst (run (BatchFetchManagersAsync tokenAddresses) st)
     = match fst call with
       | Ok managers => Ok (OutAddresses managers)
       | Err payload => Err (RemoteError payload)
       end
     ∧ world (snd (run (BatchFetchManagersAsync tokenAddresses) st)) = snd call
     ∧ request <$> events (run (BatchFetchManagersAsync tokenAddresses)) st
       = [ ReqBatchFetchManagers tokenAddresses ])
  ∧ (let st := api feeInfoResolves streamingFeeModule chain in
     ContractWrapper.is_hex_address "not-an-address" = false
     ∧ ("tokenAddresses", "not-an-address")
       ∈ address_arguments (BatchFetchManagersAsync ["not-an-address"])
     ∧ request <$> events (run (BatchFetchManagersAsync ["not-an-address"])) st
       = [ ReqBatchFetchManagers ["not-an-address"] ]
     ∧ (∀ message, fst (run (BatchFetchManagersAsync ["not-an-address"]) st)
                   ≠ Err (ValidationError message))
     ∧ run (BatchFetchSetDetailsAsync ["not-an-address"] [] None) st
       = (Err (ValidationError "setTokenAddresses"), st)).
Proof.
  split.
  - intros W st tokenAddresses call.
    unfold run, batchFetchManagersAsync, events.
    rewrite fmap_eq, bind_self. unfold delegate, push. fold call.
    destruct call as [[managers|payload] w']; simpl;
      by rewrite drop_app_length.
  - repeat split; try (vm_compute; reflexivity).
    + apply list_elem_of_here.
    + intros message. by vm_compute.
Qed.

Lemma C6_rejected_request_fails_operation_witness :
  fst (fetchSetDetailsAsync setTokenAddress [] None
         (api feeInfoRejects mockIssuanceModule chain))
  = Err (RemoteError "call revert exception").
Proof.
  apply (proj2 (C6_rejected_request_fails_operation
                  (api feeInfoRejects mockIssuanceModule chain))).
  vm_compute. reflexivity.
Defined.

Lemma C9_batch_arrays_aligned_witness :
  let tokens := [firstComponent; secondComponent] in
  world (snd (batchFetchBalancesOfAsync tokens owner None recorder))
  = [tokens; [owner; owner]]
  ∧ world (snd (batchFetchAllowancesAsync tokens owner managerAccount None recorder))
    = [tokens; [owner; owner]; [managerAccount; managerAccount]].
Proof.
  intros tokens.
  destruct (C9_batch_arrays_aligned recorder tokens owner owner managerAccount None)
    as (users & owners & spenders & [Hlu Hu] & [Hlo Ho] & [Hls Hs]
        & Hbalances & Hallowances & _).
  assert (Hpair : ∀ (l : list Address) (a : Address),
            length l = 2 → (∀ x, x ∈ l → x = a) → l = [a; a]).
  { intros [|x [|y [|z l]]] a Hl Hall; try discriminate.
    rewrite (Hall x), (Hall y); [reflexivity | |].
    - apply list_elem_of_further, list_elem_of_here.
    - apply list_elem_of_here. }
  apply Hpair in Hu; [|exact Hlu]. apply Hpair in Ho; [|exact Hlo].
  apply Hpair in Hs; [|exact Hls]. subst users owners spenders.
  split.
  - destruct Hbalances as (_ & Hworld & _); [reflexivity | reflexivity |].
    exact Hworld.
  - destruct Hallowances as (_ & Hworld & _); [reflexivity | reflexivity | reflexivity |].
    exact Hworld.
Defined.


Lemma C5_module_lifecycle_witness :
  let over w :=
    instance ContractWrapper.is_hex_address is_hex_bytes32 SetTokenContract.wrapper
      creator (viewer feeInfoResolves) utils streamingFeeModule w [] in
  let observe w := fst (getModuleStateAsync setTokenAddress testAccount None (over w)) in
  (observe (fresh chain) = Ok NONE
   ∧ ∃ tx st1,
       addModuleAsync setTokenAddress testAccount (Some managerAccount) []
         (over (fresh chain)) = (Ok tx, st1)
       ∧ observe (world st1) = Ok PENDING)
  ∧ (observe (fresh pending) = Ok PENDING
     ∧ ∃ tx st2,
         initializeModuleAsync setTokenAddress (Some testAccount) []
           (over (fresh pending)) = (Ok tx, st2)
         ∧ observe (world st2) = Ok INITIALIZED)
  ∧ (∃ st3,
       initializeModuleAsync setTokenAddress (Some testAccount) []
         (over (fresh chain)) = (Err (RemoteError "Module must be pending"), st3)
       ∧ Wrappers.chain (world st3) = chain
       ∧ observe (world st3) = Ok NONE).
Proof.
  intros over observe.
  pose proof (C5_module_lifecycle ContractWrapper.is_hex_address is_hex_bytes32
                creator (viewer feeInfoResolves) utils streamingFeeModule
                setTokenAddress testAccount owner (fresh chain) [] [] eq_refl)
    as (Hadd & _ & Hfail & _).
  pose proof (C5_module_lifecycle ContractWrapper.is_hex_address is_hex_bytes32
                creator (viewer feeInfoResolves) utils streamingFeeModule
                setTokenAddress testAccount owner (fresh pending) [] [] eq_refl)
    as (_ & Hinit & _).
  split; [|split].
  - split; [vm_compute; reflexivity|].
    apply (Hadd (Some managerAccount) deployed).
    + vm_compute. reflexivity.
    + vm_compute. reflexivity.
    + apply (bool_decide_unpack (testAccount ∈ SetTokenContract.enabledModules (Wrappers.chain (fresh chain)))). vm_compute. exact I.
    + vm_compute. reflexivity.
  - split; [vm_compute; reflexivity|].
    apply (Hinit (Some testAccount)
             (SetTokenContract.setState deployed testAccount PENDING
                (SetTokenContract.moduleList deployed))).
    + vm_compute. reflexivity.
    + vm_compute. reflexivity.
    + vm_compute. reflexivity.
    + vm_compute. reflexivity.
  - destruct (Hfail (Some testAccount) NONE) as (payload & st3 & Hrevert & Hrun & _ & Hchain & Hobs).
    + vm_compute. reflexivity.
    + vm_compute. reflexivity.
    + discriminate.
    + vm_compute in Hrevert. injection Hrevert as <-.
      exists st3. split; [exact Hrun|]. split; [exact Hchain | exact Hobs].
Defined.

Lemma C8_wrappers_hold_no_entity_state_witness :
  let st := layered chain in
  let op := GetPositionsAsync setTokenAddress (Some testAccount) in
  let after := snd (run op st) in
  this after = this st
  ∧ Wrappers.chain (world after) = chain
  ∧ Wrappers.getPositions SetTokenContract.interface setTokenAddress chain
    = Ok (SetTokenContract.positionList deployed).
Proof.
  intros st op after.
  destruct (C8_wrappers_hold_no_entity_state deployment protocolViewerAddress
              streamingFeeModule setTokenCreatorAddress
              (Assertions.new ContractWrapper.is_hex_address is_hex_bytes32) None
              (fresh chain) [] op st (λ _ (w : World), (Ok [], w)) setTokenAddress
              {| SetTokenWrapper.this := SetTokenWrapper.new provider;
                 SetTokenWrapper.allocated := 0;
                 SetTokenWrapper.world := fresh chain |}
              (ContractWrapper.new provider 0)
              (ContractWrapper.LoadSetTokenAsync setTokenAddress None))
    as (_ & Hthis & _ & _ & _ & Hread & Hpositions & _).
  split; [exact Hthis|]. split.
  - apply Hread. reflexivity.
  - apply (Hpositions setTokenAddress (Some testAccount)).
    + reflexivity.
    + vm_compute. reflexivity.
Defined.

(** A malformed caller address passes the assertions of the API, which has
    none for it, and is stopped by the wrapper: the provider has no signer
    for it, so nothing is sent and nothing is connected. *)
Example malformed_caller_stops_at_the_wrapper :
  let st := api feeInfoResolves streamingFeeModule chain in
  let call := getPositionsAsync setTokenAddress (Some "not-an-address") in
  fst (call st) = Err (RemoteError "unknown account")
  ∧ world (snd (call st)) = world st.
Proof. split; vm_compute; reflexivity. Qed.

(** The life cycle of the tests, run through: the module reads [NONE], is
    added by the manager, reads [PENDING], initializes itself, reads
    [INITIALIZED]; a second [initializeModuleAsync] is rejected with the
    revert message, and so is one by an account that was never added. *)
Example lifecycle_runs :
  let read st := fst (getModuleStateAsync setTokenAddress testAccount None st) in
  let st0 := api feeInfoResolves streamingFeeModule chain in
  let st1 := snd (addModuleAsync setTokenAddress testAccount (Some managerAccount) [] st0) in
  let st2 := snd (initializeModuleAsync setTokenAddress (Some testAccount) [] st1) in
  read st0 = Ok NONE ∧ read st1 = Ok PENDING ∧ read st2 = Ok INITIALIZED
  ∧ fst (initializeModuleAsync setTokenAddress (Some testAccount) [] st2)
    = Err (RemoteError "Module must be pending")
  ∧ fst (initializeModuleAsync setTokenAddress (Some owner) [] st2)
    = Err (RemoteError "Module must be pending").
Proof. repeat split; vm_compute; reflexivity. Qed.

End ScenarioFacts.

(** ** More on the contract-handle cache *)

Section ContractWrapperCoverage.

Import ContractWrapper.

(** X1. Whatever the cache holds, a call resolves to a stored or new handle
    or rejects: the [in] test, which also sees the members every object
    inherits, never makes it return one of those. *)
Theorem X1_call_never_returns_inherited (st : State) (m : Method) (name : string) :
  fst (call m st) ≠ Ok (Inherited name).
Proof.
  rewrite call_load. unfold load.
  destruct (getAddress _) as [c|]; [|done]. simpl.
  rewrite js_in_cacheKey. unfold js_get.
  destruct (cache st !! cacheKey _ _ c) as [h|] eqn:Hc.
  - by rewrite bool_decide_eq_true_2 by (by eexists).
  - by rewrite bool_decide_eq_false_2 by (by intros [? ?]).
Qed.

(** The kind is read back from a key, whatever the addresses are. *)
Lemma cacheKey_kind k1 a1 c1 k2 a2 c2 :
  cacheKey k1 a1 c1 = cacheKey k2 a2 c2 → k1 = k2.
Proof.
  unfold cacheKey. intros Heq. by destruct k1, k2; simpl in Heq; simplify_eq.
Qed.

Lemma load_cache_keyed k a s st : cache_keyed st → cache_keyed (snd (load k a s st)).
Proof.
  intros Hst. unfold load.
  destruct (getAddress s) as [c|] eqn:Hs; [|done]. simpl.
  destruct (js_in _ _); [done|].
  intros key h. simpl. rewrite lookup_insert.
  case_decide; [|by apply Hst]. intros ?; simplify_eq/=. eauto.
Qed.

Lemma calls_cache_keyed ms st : cache_keyed st → cache_keyed (calls ms st).
Proof.
  revert st. induction ms as [|m ms IH]; intros st H; simpl; [done|].
  apply IH. rewrite call_load. by apply load_cache_keyed.
Qed.

(** X2. On an instance used through its methods only, the handle a call
    resolves to was connected by the factory of the kind asked for; and, the
    caller addresses holding no underscore, at the address asked for and
    with a signer of the caller's address. *)
Theorem X2_handle_matches_request
    (p : Provider) (heap : nat) (ms : list Method) (m : Method)
    (k : ContractKind) (a c : Address) (h : Contract) :
  tuple_of p m = Some (k, a, c) →
  fst (call m (calls ms (new p heap))) = Ok (Handle h) →
  factory h = k
  ∧ ∃ c', getAddress (signer h) = Some c'
          ∧ (no_underscore c = true → no_underscore c' = true →
             address h = a ∧ c' = c).
Proof.
  intros Ht Hr.
  assert (Hp : provider (calls ms (new p heap)) = p) by apply calls_provider.
  assert (Hkeyed : cache_keyed (snd (call m (calls ms (new p heap))))).
  { rewrite call_load. apply load_cache_keyed, calls_cache_keyed.
    intros key h'. simpl. by rewrite lookup_empty. }
  rewrite <- Hp in Ht.
  destruct (call_tuple _ _ _ _ _ Ht) as (h' & Hr' & Hs & _).
  rewrite Hr in Hr'. simplify_eq.
  destruct (Hkeyed _ _ Hs) as (c' & Hc' & Hkey).
  split; [symmetry; by eapply cacheKey_kind|].
  exists c'. split; [done|]. intros H1 H2.
  apply cacheKey_inj in Hkey as (_ & -> & ->); done.
Qed.

Lemma X2_handle_matches_request_witness :
  ∃ h, fst (call (LoadERC20Async Scenario.firstComponent (Some Scenario.testAccount))
              (calls [LoadSetTokenAsync Scenario.firstComponent None]
                 (new Scenario.provider 0))) = Ok (Handle h)
       ∧ factory h = ERC20 ∧ address h = Scenario.firstComponent.
Proof.
  eexists. split; [vm_compute; reflexivity|].
  destruct (X2_handle_matches_request Scenario.provider 0
              [LoadSetTokenAsync Scenario.firstComponent None]
              (LoadERC20Async Scenario.firstComponent (Some Scenario.testAccount))
              ERC20 Scenario.firstComponent Scenario.testAccount _
              eq_refl eq_refl) as (Hk & c' & Hc' & Haddr).
  split; [exact Hk|].
  injection Hc' as <-. exact (proj1 (Haddr eq_refl eq_refl)).
Defined.

Lemma append_assoc (a b c : string) : (a +:+ b) +:+ c = a +:+ (b +:+ c).
Proof.
  induction a as [|x a IH]; [reflexivity|].
  change (String x ((a +:+ b) +:+ c) = String x (a +:+ (b +:+ c))).
  by rewrite IH.
Qed.

(** X3. The key does not keep its parts apart: an underscore may end the
    address or start the caller.  So a call for address [a] by a caller
    reporting [b_c] finds the entry of address [a_b] and caller [c], and
    resolves to that handle, leaving the instance as it is. *)
Theorem X3_key_parts_not_separated
    (k : ContractKind) (a b c : string) (s1 s2 : Signer) (st : State) :
  getAddress s1 = Some c →
  getAddress s2 = Some (b +:+ "_" +:+ c) →
  let first := load k (a +:+ "_" +:+ b) s1 st in
  cacheKey k (a +:+ "_" +:+ b) c = cacheKey k a (b +:+ "_" +:+ c)
  ∧ load k a s2 (snd first) = first.
Proof.
  intros H1 H2 first.
  assert (Hkey : cacheKey k (a +:+ "_" +:+ b) c = cacheKey k a (b +:+ "_" +:+ c)).
  { unfold cacheKey. f_equal. f_equal. by rewrite !append_assoc. }
  split; [done|]. unfold first.
  destruct (cache st !! cacheKey k (a +:+ "_" +:+ b) c) as [h|] eqn:Hc.
  - rewrite (load_hit _ _ _ _ _ _ H1 Hc). simpl.
    apply (load_hit _ _ _ _ _ _ H2). by rewrite <- Hkey.
  - rewrite (load_miss _ _ _ _ _ H1 Hc). simpl.
    erewrite (load_hit _ _ _ _ _ _ H2); [done|].
    simpl. by rewrite <- Hkey, lookup_insert_eq.
Qed.

Lemma X3_key_parts_not_separated_witness :
  let s1 := {| getAddress := Some "c" |} in
  let s2 := {| getAddress := Some "b_c" |} in
  let first := load Controller "a_b" s1 (new Scenario.provider 0) in
  load Controller "a" s2 (snd first) = first
  ∧ fst first = Ok (Handle {| ref := 0; factory := Controller; address := "a_b";
                             signer := s1 |}).
Proof.
  intros s1 s2 first. split.
  - exact (proj2 (X3_key_parts_not_separated Controller "a" "b" "c" s1 s2
                    (new Scenario.provider 0) eq_refl eq_refl)).
  - reflexivity.
Defined.

Lemma load_count k a s st :
  allocated (snd (load k a s st)) + size (cache st)
  = allocated st + size (cache (snd (load k a s st)))
  ∧ (size (cache (snd (load k a s st))) ≤ S (size (cache st)))%nat.
Proof.
  unfold load. destruct (getAddress s) as [c|]; [|simpl; lia]. simpl.
  rewrite js_in_cacheKey.
  destruct (cache st !! cacheKey k a c) as [h|] eqn:Hc.
  - rewrite bool_decide_eq_true_2 by (by eexists). simpl. lia.
  - rewrite bool_decide_eq_false_2 by (by intros [? ?]). simpl.
    rewrite map_size_insert_None by done. lia.
Qed.

Lemma calls_count ms st :
  allocated (calls ms st) + size (cache st)
  = allocated st + size (cache (calls ms st))
  ∧ (size (cache (calls ms st)) ≤ size (cache st) + length ms)%nat.
Proof.
  revert st. induction ms as [|m ms IH]; intros st; simpl; [lia|].
  destruct (IH (snd (call m st))) as [IH1 IH2].
  rewrite call_load in IH1, IH2.
  destruct (load_count (kind_of m) (address_of m) (signer_of (provider st) m) st)
    as [H1 H2].
  unfold calls in *. simpl. rewrite call_load. lia.
Qed.

(** X4. A contract is connected once per key: after any calls on a new
    instance, as many handles were allocated as the cache has entries, and
    that is at most the number of calls. *)
Theorem X4_connects_once_per_key (p : Provider) (heap : nat) (ms : list Method) :
  allocated (calls ms (new p heap)) = heap + size (cache (calls ms (new p heap)))
  ∧ (size (cache (calls ms (new p heap))) ≤ length ms)%nat.
Proof.
  destruct (calls_count ms (new p heap)) as [H1 H2].
  simpl in H1, H2. rewrite map_size_empty in H1, H2. lia.
Qed.

Lemma load_domain k a s st key :
  is_Some (cache (snd (load k a s st)) !! key)
  ↔ is_Some (cache st !! key)
    ∨ ∃ c, getAddress s = Some c ∧ key = cacheKey k a c.
Proof.
  unfold load. destruct (getAddress s) as [c|]; simpl.
  - rewrite js_in_cacheKey.
    destruct (cache st !! cacheKey k a c) as [h|] eqn:Hc.
    + rewrite bool_decide_eq_true_2 by (by eexists). simpl. split; [by left|].
      intros [?|(? & ? & ->)]; [done|]. simplify_eq. by eexists.
    + rewrite bool_decide_eq_false_2 by (by intros [? ?]). simpl.
      rewrite lookup_insert_is_Some. split.
      * intros [<-|[_ ?]]; [right; eauto | by left].
      * intros [?|(? & ? & ->)]; simplify_eq.
        -- destruct (decide (cacheKey k a c = key)); [by left | by right].
        -- by left.
  - split; [by left|]. by intros [?|(? & ? & _)].
Qed.

(** X5. The cache of an instance holds exactly the keys of the calls made
    on it whose signer gave an address: nothing else is ever stored, and
    each such call leaves its entry. *)
Theorem X5_cache_holds_requested_keys
    (p : Provider) (heap : nat) (ms : list Method) (key : string) :
  is_Some (cache (calls ms (new p heap)) !! key)
  ↔ ∃ m k a c, m ∈ ms ∧ tuple_of p m = Some (k, a, c) ∧ key = cacheKey k a c.
Proof.
  assert (H : ∀ st, provider st = p →
            (is_Some (cache (calls ms st) !! key)
             ↔ is_Some (cache st !! key)
               ∨ ∃ m k a c, m ∈ ms ∧ tuple_of p m = Some (k, a, c)
                            ∧ key = cacheKey k a c)).
  { induction ms as [|m ms IH]; intros st Hp.
    - simpl. split; [by left|].
      intros [?|(m & ? & ? & ? & Hin & _)]; [done | by apply elem_of_nil in Hin].
    - unfold calls. simpl. fold (calls ms (snd (call m st))).
      rewrite IH by (by rewrite call_load, load_provider).
      rewrite call_load, load_domain, Hp. unfold tuple_of. split.
      + intros [[?|(c & Hc & ->)]|(m' & k & a & c & Hin & Ht & ->)].
        * by left.
        * right. exists m, (kind_of m), (address_of m), c.
          split; [apply list_elem_of_here|]. by rewrite Hc.
        * right. exists m', k, a, c. split; [by apply list_elem_of_further|done].
      + intros [?|(m' & k & a & c & [->|Hin]%elem_of_cons & Ht & ->)].
        * by left; left.
        * left; right. destruct (getAddress _) as [c'|]; [|done].
          simplify_eq. eauto.
        * right. by exists m', k, a, c. }
  rewrite (H (new p heap) eq_refl). simpl. rewrite lookup_empty.
  split; [intros [[? ?]|?]; done | by right].
Qed.

End ContractWrapperCoverage.

(** ** More on the SetToken API *)

Section SetTokenAPICoverage.

Import SetTokenAPI.

Context {W : Type}.
Implicit Types (st : St W) (op : Op).

(** *** Computations that touch nothing *)

Create HintDb silence discriminated.

Lemma silent_ret {A} (a : A) : silent (mret (M := M W) a).
Proof. by intros st. Qed.

Lemma silent_self : silent (W := W) self.
Proof. by intros st. Qed.

Lemma silent_check r : silent (W := W) (check r).
Proof. intros st. unfold check. by destruct r. Qed.

Lemma silent_throw {A} e : silent (W := W) (throw (A := A) e).
Proof. by intros st. Qed.

Lemma silent_bind {A B} (m : M W A) (f : A → M W B) :
  silent m → (∀ a, silent (f a)) → silent (m ≫= f).
Proof.
  intros Hm Hf st. rewrite bind_eq. specialize (Hm st).
  destruct (m st) as [[a|e] st']; simpl in *; subst; [apply Hf | done].
Qed.

Lemma silent_mapM {A B} (f : A → M W B) (l : list A) :
  (∀ x, silent (f x)) → silent (mapM f l).
Proof.
  intros Hf. induction l as [|x l IH]; simpl; [apply silent_ret|].
  apply silent_bind; [done|]. intros y.
  apply silent_bind; [done|]. intros ys. apply silent_ret.
Qed.

Lemma silent_forEach {A S} (f : A → S → M W S) (l : list A) (s : S) :
  (∀ x s, silent (f x s)) → silent (forEach f l s).
Proof.
  intros Hf. revert s. induction l as [|x l IH]; intros s; simpl;
    [apply silent_ret|].
  apply silent_bind; [done|]. intros s'. apply IH.
Qed.

#[local] Hint Resolve silent_ret silent_self silent_check silent_throw silent_bind
  silent_mapM silent_forEach : silence.

(** *** Counting requests *)

Create HintDb counting discriminated.

Lemma logs_silent {A} n (m : M W A) : silent m → logs_at_most n m.
Proof.
  intros Hm st. exists []. rewrite Hm, app_nil_r. simpl. repeat split; lia.
Qed.

Lemma logs_delegate {A} n req (f : Remote W A) : logs_at_most (S n) (delegate req f).
Proof.
  intros st. unfold delegate, push.
  destruct (f (world st)) as [[a|e] w]; simpl; eexists [_];
    (split; [reflexivity|]); (split; [simpl; lia | done]).
Qed.

Lemma logs_bind_silent {A B} n (m : M W A) (f : A → M W B) :
  silent m → (∀ a, logs_at_most n (f a)) → logs_at_most n (m ≫= f).
Proof.
  intros Hm Hf st. rewrite bind_eq. specialize (Hm st).
  destruct (m st) as [[a|e] st']; simpl in *; subst; [apply Hf|].
  exists []. rewrite app_nil_r. simpl. repeat split; lia.
Qed.

Lemma logs_bind_delegate {A B} n req (g : Remote W A) (f : A → M W B) :
  (∀ a, logs_at_most n (f a)) → logs_at_most (S n) (delegate req g ≫= f).
Proof.
  intros Hf st. rewrite bind_delegate.
  destruct (g (world st)) as [[a|e] w].
  - destruct (Hf a {| this := this st; world := w;
                      trace := push (trace st)
                                 {| request := req; rejection := None |} |})
      as (evs & Ht & Hn & _).
    exists ({| request := req; rejection := None |} :: evs).
    rewrite Ht. unfold push. simpl. rewrite <- app_assoc.
    split; [done|]. split; [simpl; lia | done].
  - eexists [_]. unfold push. simpl. split; [reflexivity|].
    split; [simpl; lia | done].
Qed.

Lemma logs_fmap {A B} n (g : A → B) (m : M W A) :
  logs_at_most n m → logs_at_most n (g <$> m).
Proof.
  intros Hm st. rewrite fmap_eq. specialize (Hm st).
  by destruct (m st) as [[a|e] st'].
Qed.

#[local] Hint Resolve logs_delegate logs_bind_delegate logs_fmap : counting.
#[local] Hint Extern 3 (logs_at_most _ (_ ≫= _)) =>
  apply logs_bind_silent; [solve [auto 20 with silence] | intro] : counting.
#[local] Hint Extern 4 (logs_at_most _ _) =>
  apply logs_silent; solve [auto 20 with silence] : counting.
#[local] Hint Extern 2 (logs_at_most _ (if ?b then _ else _)) => destruct b : counting.
#[local] Hint Extern 2 (logs_at_most _ (match ?x with [] => _ | _ :: _ => _ end)) =>
  destruct x : counting.
#[local] Hint Extern 2 (logs_at_most _ (let '(_, _) := ?x in _)) =>
  destruct x : counting.

Ltac unfold_methods :=
  unfold run, createAsync, getSetAddressFromCreateHash,
    fetchSetDetailsAsync, batchFetchSetDetailsAsync, batchFetchManagersAsync,
    batchFetchBalancesOfAsync, batchFetchAllowancesAsync,
    getControllerAddressAsync, getManagerAddressAsync, getPositionsAsync,
    getModulesAsync, getModuleStateAsync, addModuleAsync, setManagerAsync,
    initializeModuleAsync, isModuleEnabledAsync, isModulePendingAsync.

Lemma run_logs_at_most_two op : logs_at_most 2 (run (W := W) op).
Proof. destruct op; unfold_methods; auto 30 with counting. Qed.

Lemma run_logs_at_most_one op :
  (∀ a ms c, op ≠ FetchSetDetailsAsync a ms c) → logs_at_most 1 (run (W := W) op).
Proof.
  intros Hop. destruct op; try (by edestruct Hop);
    unfold_methods; auto 30 with counting.
Qed.

Lemma logs_events {A} n (m : M W A) st :
  logs_at_most n m →
  (length (events m st) ≤ n)%nat ∧ (events m st = [] → snd (m st) = st).
Proof.
  intros Hm. destruct (Hm st) as (evs & Ht & Hn & Hnil).
  unfold events. by rewrite Ht, drop_app_length.
Qed.

(** X8. Whatever the arguments and however long the lists, an operation
    hands at most one request to a wrapper; [fetchSetDetailsAsync] alone can
    hand over two. *)
Theorem X8_requests_bounded (st : St W) (op : Op) :
  (length (events (run op) st) ≤ 2)%nat
  ∧ ((∀ a ms c, op ≠ FetchSetDetailsAsync a ms c) →
     (length (events (run op) st) ≤ 1)%nat).
Proof.
  split.
  - apply (logs_events 2), run_logs_at_most_two.
  - intros Hop. by apply (logs_events 1), run_logs_at_most_one.
Qed.

(** X11. An operation that hands nothing to a wrapper has no effect at
    all: the instance, what is behind the wrappers and the log are as they
    were, whatever assertions and wrappers the instance was built with. *)
Theorem X11_no_request_no_effect (st : St W) (op : Op) :
  events (run op) st = [] → snd (run op st) = st.
Proof. apply (logs_events 2), run_logs_at_most_two. Qed.

(** *** Validation comes first *)

Create HintDb validation discriminated.

Lemma never_ret {A} (a : A) : never_validation (mret (M := M W) a).
Proof. by intros st message. Qed.

Lemma never_self : never_validation (W := W) self.
Proof. by intros st message. Qed.

Lemma never_throw_TypeError {A} text :
  never_validation (W := W) (throw (A := A) (TypeError text)).
Proof. by intros st message. Qed.

Lemma never_delegate {A} req (f : Remote W A) : never_validation (delegate req f).
Proof.
  intros st message. unfold delegate. by destruct (f (world st)) as [[a|e] w].
Qed.

Lemma never_bind {A B} (m : M W A) (f : A → M W B) :
  never_validation m → (∀ a, never_validation (f a)) → never_validation (m ≫= f).
Proof.
  intros Hm Hf st message. rewrite bind_eq. specialize (Hm st message).
  destruct (m st) as [[a|e] st']; simpl in *; [apply Hf|].
  intros ?; simplify_eq.
Qed.

Lemma never_fmap {A B} (g : A → B) (m : M W A) :
  never_validation m → never_validation (g <$> m).
Proof.
  intros Hm st message. rewrite fmap_eq. specialize (Hm st message).
  destruct (m st) as [[a|e] st']; simpl in *; [done|]. intros ?; simplify_eq.
Qed.

Lemma first_never {A} (m : M W A) : never_validation m → validates_first m.
Proof. intros Hm st message H. by apply Hm in H. Qed.

Lemma first_silent {A} (m : M W A) : silent m → validates_first m.
Proof. intros Hm st message _. apply Hm. Qed.

Lemma first_bind_silent {A B} (m : M W A) (f : A → M W B) :
  silent m → (∀ a, validates_first (f a)) → validates_first (m ≫= f).
Proof.
  intros Hm Hf st message. rewrite bind_eq. specialize (Hm st).
  destruct (m st) as [[a|e] st']; simpl in *; subst; [apply Hf | done].
Qed.

Lemma first_fmap {A B} (g : A → B) (m : M W A) :
  validates_first m → validates_first (g <$> m).
Proof.
  intros Hm st message. rewrite fmap_eq. specialize (Hm st message).
  destruct (m st) as [[a|e] st']; simpl in *; [done|].
  intros ?; simplify_eq. by apply Hm.
Qed.

#[local] Hint Resolve never_ret never_self never_throw_TypeError never_delegate
  never_bind never_fmap first_fmap : validation.
#[local] Hint Extern 2 (never_validation (if ?b then _ else _)) => destruct b : validation.
#[local] Hint Extern 2 (never_validation (match ?x with [] => _ | _ :: _ => _ end)) =>
  destruct x : validation.
#[local] Hint Extern 2 (never_validation (let '(_, _) := ?x in _)) =>
  destruct x : validation.
#[local] Hint Extern 2 (validates_first (let '(_, _) := ?x in _)) =>
  destruct x : validation.
#[local] Hint Extern 3 (validates_first (_ ≫= _)) =>
  apply first_bind_silent; [solve [auto 20 with silence] | intro] : validation.
#[local] Hint Extern 4 (validates_first _) =>
  apply first_never; solve [auto 20 with validation] : validation.
#[local] Hint Extern 5 (validates_first _) =>
  apply first_silent; solve [auto 20 with silence] : validation.

Lemma run_validates_first op : validates_first (run (W := W) op).
Proof. destruct op; unfold_methods; auto 30 with validation. Qed.

(** X12. In every operation all assertions run before the first request:
    when an operation ends in a validation error, nothing was handed to a
    wrapper and nothing has changed. *)
Theorem X12_validation_error_precedes_requests
    (st : St W) (op : Op) (message : string) :
  fst (run op st) = Err (ValidationError message) →
  snd (run op st) = st ∧ events (run op) st = [].
Proof.
  intros H. apply run_validates_first in H. split; [done|].
  unfold events. rewrite H. by rewrite drop_all.
Qed.

(** *** [fetchSetDetailsAsync], request by request *)


(** X10. When the set details list the streaming fee module and the
    streaming fee fetch resolves to an empty array, [fetchSetDetailsAsync]
    fails on reading a property of the missing first entry: a type error,
    not the payload of a request, after both requests resolved. *)
Theorem X10_empty_fee_info_is_a_type_error
    (st : St W) (setTokenAddress : Address) (moduleAddresses : list Address)
    (callerAddress : option Address) (d : SetDetails) (w1 w2 : W) :
  Assertions.isValidAddress (Assertions.schema (assert (this st)))
    "setTokenAddress" setTokenAddress = Ok () →
  Assertions.isValidAddressList (Assertions.schema (assert (this st)))
    "moduleAddresses" moduleAddresses = Ok () →
  getSetDetails (protocolViewerWrapper (this st)) setTokenAddress moduleAddresses
    callerAddress (world st) = (Ok d, w1) →
  streamingFeeModuleAddress (this st) ∈ modules d →
  batchFetchStreamingFeeInfo (protocolViewerWrapper (this st)) [setTokenAddress]
    callerAddress w1 = (Ok [], w2) →
  ∃ text,
    fetchSetDetailsAsync setTokenAddress moduleAddresses callerAddress st
    = (Err (TypeError text),
       {| this := this st; world := w2;
          trace := (trace st
                    ++ [ {| request := ReqGetSetDetails setTokenAddress
                                         moduleAddresses callerAddress;
                            rejection := None |};
                         {| request := ReqBatchFetchStreamingFeeInfo
                                         [setTokenAddress] callerAddress;
                            rejection := None |} ])%list |}).
Proof.
  intros H1 H2 Hd Hin Hf. unfold fetchSetDetailsAsync.
  rewrite bind_self, bind_check, H1, bind_check, H2, bind_delegate, Hd.
  rewrite bind_self. simpl. rewrite bool_decide_eq_true_2 by done. simpl.
  rewrite bind_delegate. simpl. rewrite Hf. unfold throw, push. simpl.
  rewrite <- app_assoc. by eexists.
Qed.

(** *** The default assertions *)

Variables (wellFormed : Address → bool) (wellFormedBytes32 : string → bool).

(** X6. [createAsync] declines an empty component list before it looks at
    anything else, and unequal lengths before it looks at any address: the
    message is that of the first assertion that fails, and nothing has
    changed. *)
Theorem X6_createAsync_error_precedence
    (stw : SetTokenWrapper W) (creator : SetTokenCreatorWrapper W)
    (viewer : ProtocolViewerWrapper W) (utils : ProtocolUtils W)
    (sfm : Address) (w : W) (log : list Event)
    (componentAddresses : list Address) (units : list Z)
    (moduleAddresses : list Address) (managerAddress : Address)
    (name symbol : string) (callerAddress : option Address)
    (txOpts : TransactionOverrides) :
  let st := instance wellFormed wellFormedBytes32 stw creator viewer utils sfm w log in
  let call := createAsync componentAddresses units moduleAddresses managerAddress
                name symbol callerAddress txOpts in
  (componentAddresses = [] →
   call st = (Err (ValidationError
                     "Component addresses must contain at least one component."),
              st))
  ∧ (componentAddresses ≠ [] → length componentAddresses ≠ length units →
     call st = (Err (ValidationError
                       "Component addresses and units must be equal length."),
                st)).
Proof.
  intros st call. split.
  - intros ->. unfold call, createAsync. rewrite bind_self. simpl.
    by rewrite bind_check.
  - intros Hne Hlen. unfold call, createAsync. rewrite bind_self. simpl.
    rewrite bind_check.
    destruct (Nat.eqb_spec (length componentAddresses) 0) as [H0|_];
      [by destruct componentAddresses|].
    rewrite bind_check.
    by destruct (Nat.eqb_spec (length componentAddresses) (length units)).
Qed.

Lemma events_fmap {A B} (g : A → B) (m : M W A) st :
  events (g <$> m) st = events m st.
Proof. unfold events. rewrite fmap_eq. by destruct (m st) as [[?|?] ?]. Qed.

Lemma events_bind_result {A B} (m : M W A) (k : A → M W B) st r :
  m st = (r, st) →
  events (m ≫= k) st = match r with
                       | Ok a => events (k a) st
                       | Err _ => []
                       end.
Proof.
  intros H. unfold events. rewrite bind_eq, H. destruct r; [done|].
  simpl. by rewrite drop_all.
Qed.

Lemma events_delegate_first {A B} n req (g : Remote W A) (k : A → M W B) st :
  (∀ a, logs_at_most n (k a)) →
  ∃ ev rest, events (delegate req g ≫= k) st = ev :: rest ∧ request ev = req.
Proof.
  intros Hk. unfold events. rewrite bind_delegate.
  destruct (g (world st)) as [[a|e] w].
  - destruct (Hk a {| this := this st; world := w;
                      trace := push (trace st)
                                 {| request := req; rejection := None |} |})
      as (evs & -> & _).
    unfold push. simpl. rewrite <- app_assoc, drop_app_length. simpl. eauto.
  - unfold push. simpl. rewrite drop_app_length. eauto.
Qed.

Lemma events_delegate_nonempty {A B} n req (g : Remote W A) (k : A → M W B) st :
  (∀ a, logs_at_most n (k a)) →
  ∃ ev rest, events (delegate req g ≫= k) st = ev :: rest.
Proof.
  intros Hk. destruct (events_delegate_first n req g k st Hk) as (ev & rest & H & _).
  eauto.
Qed.

Lemma forallb_well_formed (l : list Address) :
  (∀ a, a ∈ l → wellFormed a = true) → forallb wellFormed l = true.
Proof.
  intros H. apply forallb_forall. intros a Ha. by apply H, list_elem_of_In.
Qed.

(** What the arguments allow to conclude about one address or one list. *)
Ltac well_formed_fact H :=
  first
    [ eapply H; [simpl;
                 repeat (rewrite ?elem_of_app, ?elem_of_cons, ?list_elem_of_fmap);
                 by eauto 10
                | discriminate]
    | apply forallb_well_formed; intros ? ?;
      eapply H; [simpl;
                 repeat (rewrite ?elem_of_app, ?elem_of_cons, ?list_elem_of_fmap);
                 by eauto 10
                | discriminate] ].

Lemma events_bind_self {B} (k : t W → M W B) st :
  events (self ≫= k) st = events (k (this st)) st.
Proof. reflexivity. Qed.

Lemma events_bind_check {B} (r : result Error ()) (k : () → M W B) st :
  events (check r ≫= k) st = match r with
                             | Ok x => events (k x) st
                             | Err _ => []
                             end.
Proof.
  unfold events. rewrite bind_check. destruct r; [done|]. simpl. by rewrite drop_all.
Qed.

Ltac pass_checks H :=
  repeat (rewrite events_bind_check;
          match goal with
          | |- context [if wellFormed ?a then _ else _] =>
              replace (wellFormed a) with true by (symmetry; well_formed_fact H)
          | |- context [if forallb wellFormed ?l then _ else _] =>
              replace (forallb wellFormed l) with true
                by (symmetry; well_formed_fact H)
          end).

(** X7. With the default assertions, an operation whose address arguments
    (the caller address aside) are all well formed, and for [createAsync]
    whose component list is not empty and as long as the units, and for
    [getSetAddressFromCreateHash] whose hash is well formed, is never
    declined by validation: its first request reaches a wrapper. *)
Theorem X7_well_formed_arguments_reach_the_wrapper
    (stw : SetTokenWrapper W) (creator : SetTokenCreatorWrapper W)
    (viewer : ProtocolViewerWrapper W) (utils : ProtocolUtils W)
    (sfm : Address) (w : W) (log : list Event) (op : Op) :
  (∀ name a, (name, a) ∈ address_arguments op → name ≠ "callerAddress" →
             wellFormed a = true) →
  (∀ c u m mgr n s cl tx, op = CreateAsync c u m mgr n s cl tx →
                          c ≠ [] ∧ length c = length u) →
  (∀ h, op = GetSetAddressFromCreateHash h → wellFormedBytes32 h = true) →
  let st := instance wellFormed wellFormedBytes32 stw creator viewer utils sfm w log in
  events (run op) st ≠ []
  ∧ ∀ message, fst (run op st) ≠ Err (ValidationError message).
Proof.
  intros Hwf Hcreate Hhash st.
  assert (Hev : ∃ ev rest, events (run op) st = ev :: rest).
  { destruct op; unfold run; rewrite events_fmap; unfold_methods;
      rewrite events_bind_self; simpl.
    - destruct (Hcreate _ _ _ _ _ _ _ _ eq_refl) as [Hne Hlen].
      rewrite events_bind_check.
      destruct (Nat.eqb_spec (length componentAddresses) 0) as [H0|_];
        [by destruct componentAddresses|].
      rewrite events_bind_check, Hlen, Nat.eqb_refl.
      pass_checks Hwf. rewrite events_delegate. eauto.
    - rewrite events_bind_check, (Hhash _ eq_refl), events_delegate. eauto.
    - pass_checks Hwf.
      apply (events_delegate_nonempty 1).
      intros a. cbv beta zeta. auto 30 with counting.
    - pass_checks Hwf.
      apply (events_delegate_nonempty 0).
      intros a. apply logs_silent, silent_ret.
    - rewrite events_delegate. eauto.
    - pass_checks Hwf.
      erewrite events_bind_result by apply mapM_checks.
      rewrite first_error_default.
      replace (forallb wellFormed tokenAddresses) with true
        by (symmetry; well_formed_fact Hwf).
      rewrite events_delegate. eauto.
    - pass_checks Hwf.
      erewrite events_bind_result by apply forEach_checks.
      rewrite first_error_default.
      replace (forallb wellFormed tokenAddresses) with true
        by (symmetry; well_formed_fact Hwf).
      rewrite events_delegate. eauto.
    - pass_checks Hwf. rewrite events_delegate. eauto.
    - pass_checks Hwf. rewrite events_delegate. eauto.
    - pass_checks Hwf. rewrite events_delegate. eauto.
    - pass_checks Hwf. rewrite events_delegate. eauto.
    - pass_checks Hwf. rewrite events_delegate. eauto.
    - pass_checks Hwf. rewrite events_delegate. eauto.
    - pass_checks Hwf. rewrite events_delegate. eauto.
    - pass_checks Hwf. rewrite events_delegate. eauto.
    - pass_checks Hwf. rewrite events_delegate. eauto.
    - pass_checks Hwf. rewrite events_delegate. eauto. }
  destruct Hev as (ev & rest & Hev). split; [by rewrite Hev|].
  intros message Hm.
  apply run_validates_first in Hm. unfold events in Hev.
  rewrite Hm, drop_all in Hev. done.
Qed.

End SetTokenAPICoverage.

(** ** More on the SetTokenWrapper *)

Section SetTokenWrapperCoverage.

Context {W : Type}.
Variable getPositions : Address → W → result string (list Position) * W.

(** X13. [popPosition] keeps no contract object: every call builds a new
    one, also for an address it was called with before, so after a series
    of calls as many objects were built as calls were made, and the object
    built for an address after them is not the one built for it before; each
    call resolves to what the contract at that address answers, and the
    wrapper's provider is as it was. *)
Theorem X13_popPosition_connects_anew
    (addresses : list Address) (st : SetTokenWrapper.St W) (a : Address) :
  let after := foldl (λ s x, snd (SetTokenWrapper.popPosition getPositions x s))
                 st addresses in
  SetTokenWrapper.allocated after
  = SetTokenWrapper.allocated st + length addresses
  ∧ SetTokenWrapper.this after = SetTokenWrapper.this st
  ∧ fst (SetTokenWrapper.popPosition getPositions a after)
    = fst (getPositions a (SetTokenWrapper.world after))
  ∧ (addresses ≠ [] →
     SetTokenWrapper.ref (fst (SetTokenWrapper.loadSetToken a after))
     ≠ SetTokenWrapper.ref (fst (SetTokenWrapper.loadSetToken a st))).
Proof.
  intros after.
  assert (H : SetTokenWrapper.allocated after
              = SetTokenWrapper.allocated st + length addresses
              ∧ SetTokenWrapper.this after = SetTokenWrapper.this st).
  { unfold after. clear after. revert st.
    induction addresses as [|x l IH]; intros st; simpl; [split; [lia | done]|].
    destruct (IH (snd (SetTokenWrapper.popPosition getPositions x st))) as [-> ->].
    unfold SetTokenWrapper.popPosition, SetTokenWrapper.loadSetToken. simpl.
    destruct (getPositions x (SetTokenWrapper.world st)). simpl. split; [lia | done]. }
  destruct H as [Hn Ht]. split; [done|]. split; [done|]. split.
  - unfold SetTokenWrapper.popPosition, SetTokenWrapper.loadSetToken. simpl.
    by destruct (getPositions a (SetTokenWrapper.world after)).
  - intros Hne. destruct addresses as [|x l]; [done|]. simpl in *. lia.
Qed.

End SetTokenWrapperCoverage.

(** ** The further properties on the scenario of the wrapper tests *)

Section CoverageScenarioFacts.

Import SetTokenAPI Scenario.

Lemma X6_createAsync_error_precedence_witness :
  let st := api feeInfoResolves streamingFeeModule chain in
  createAsync [] [1000000000000000000%Z] ["not-an-address"] "not-an-address"
    "TestSetToken" "SET" None [] st
  = (Err (ValidationError
            "Component addresses must contain at least one component."), st)
  ∧ createAsync ["not-an-address"] [] ["not-an-address"] "not-an-address"
      "TestSetToken" "SET" None [] st
    = (Err (ValidationError
              "Component addresses and units must be equal length."), st).
Proof.
  split.
  - exact (proj1 (X6_createAsync_error_precedence
                    ContractWrapper.is_hex_address is_hex_bytes32
                    SetTokenContract.wrapper creator (viewer feeInfoResolves) utils
                    streamingFeeModule (fresh chain) []
                    [] [1000000000000000000%Z] ["not-an-address"] "not-an-address"
                    "TestSetToken" "SET" None []) eq_refl).
  - apply (proj2 (X6_createAsync_error_precedence
                    ContractWrapper.is_hex_address is_hex_bytes32
                    SetTokenContract.wrapper creator (viewer feeInfoResolves) utils
                    streamingFeeModule (fresh chain) []
                    ["not-an-address"] [] ["not-an-address"] "not-an-address"
                    "TestSetToken" "SET" None [])); [discriminate | simpl; lia].
Defined.

Lemma X7_well_formed_arguments_reach_the_wrapper_witness :
  let st := api feeInfoResolves streamingFeeModule chain in
  let op := GetModuleStateAsync setTokenAddress testAccount (Some "not-an-address") in
  events (run op) st ≠ []
  ∧ ∀ message, fst (run op st) ≠ Err (ValidationError message).
Proof.
  apply (X7_well_formed_arguments_reach_the_wrapper
           ContractWrapper.is_hex_address is_hex_bytes32
           SetTokenContract.wrapper creator (viewer feeInfoResolves) utils
           streamingFeeModule (fresh chain) []
           (GetModuleStateAsync setTokenAddress testAccount (Some "not-an-address"))).
  - intros name a Hin Hne. simpl in Hin.
    repeat (apply elem_of_cons in Hin as [Hin|Hin];
            [injection Hin as -> ->; first [reflexivity | done]|]).
    by apply elem_of_nil in Hin.
  - intros; discriminate.
  - intros; discriminate.
Defined.

Lemma X8_requests_bounded_witness :
  (length (events (run (BatchFetchBalancesOfAsync
                          [firstComponent; secondComponent; firstComponent]
                          owner None))
             (api feeInfoResolves streamingFeeModule chain)) ≤ 1)%nat.
Proof.
  apply (proj2 (X8_requests_bounded (api feeInfoResolves streamingFeeModule chain)
                  (BatchFetchBalancesOfAsync
                     [firstComponent; secondComponent; firstComponent] owner None))).
  intros; discriminate.
Defined.

Lemma X10_empty_fee_info_is_a_type_error_witness :
  ∃ text,
    fst (fetchSetDetailsAsync setTokenAddress [] None
           (api (λ _ ch, (Ok [], ch)) mockIssuanceModule chain))
    = Err (TypeError text).
Proof.
  destruct (X10_empty_fee_info_is_a_type_error
              (api (λ _ ch, (Ok [], ch)) mockIssuanceModule chain)
              setTokenAddress [] None (detailsOf [] deployed) (fresh chain) (fresh chain)
              eq_refl eq_refl eq_refl) as [text H].
  - simpl. apply list_elem_of_here.
  - reflexivity.
  - exists text. by rewrite H.
Defined.

Lemma X11_no_request_no_effect_witness :
  let st := api feeInfoResolves streamingFeeModule chain in
  snd (run (AddModuleAsync setTokenAddress "not-an-address" (Some managerAccount) [])
         st) = st.
Proof.
  apply (X11_no_request_no_effect (api feeInfoResolves streamingFeeModule chain)
           (AddModuleAsync setTokenAddress "not-an-address" (Some managerAccount) [])).
  vm_compute. reflexivity.
Defined.

Lemma X12_validation_error_precedes_requests_witness :
  let st := api feeInfoResolves streamingFeeModule chain in
  let op := BatchFetchAllowancesAsync [firstComponent; "not-an-address"]
              owner managerAccount None in
  snd (run op st) = st ∧ events (run op) st = [].
Proof.
  apply (X12_validation_error_precedes_requests
           (api feeInfoResolves streamingFeeModule chain)
           (BatchFetchAllowancesAsync [firstComponent; "not-an-address"]
              owner managerAccount None)
           "tokenAddress").
  vm_compute. reflexivity.
Defined.

Lemma X13_popPosition_connects_anew_witness :
  let answer (_ : Address) (w : ()) := (Ok (A := list Position) (E := string) [], w) in
  let st := {| SetTokenWrapper.this := SetTokenWrapper.new provider;
               SetTokenWrapper.allocated := 0;
               SetTokenWrapper.world := () |} in
  let after := foldl (λ s x, snd (SetTokenWrapper.popPosition answer x s)) st
                 [setTokenAddress; setTokenAddress] in
  SetTokenWrapper.allocated after = 2
  ∧ SetTokenWrapper.ref (fst (SetTokenWrapper.loadSetToken setTokenAddress after))
    ≠ SetTokenWrapper.ref (fst (SetTokenWrapper.loadSetToken setTokenAddress st)).
Proof.
  intros answer st after.
  destruct (X13_popPosition_connects_anew answer [setTokenAddress; setTokenAddress]
              st setTokenAddress) as (Hn & _ & _ & Hne).
  split; [exact Hn|]. apply Hne. discriminate.
Defined.

End CoverageScenarioFacts.
